(** * TreeDrawer: a shallow embedding of [main.py] and its properties

    The file follows the Python class [TreeDrawer]: the helpers
    [_is_ignored], [_is_hidden], [_get_size], [_get_directory_size], the
    recursive [_tree_structure] and the entry point [draw].

    Conventions of the embedding.
    - A Python [str] is a [string]; a character outside ASCII stands as
      its UTF-8 bytes.  The order of [str] (by code point) and the order
      of the UTF-8 encodings (by byte) are the same order, and the colour
      markers of colorama are ASCII, so comparing, [startswith] and
      [replace] act on the bytes as they act on the code points.
    - The file system is a finite tree of [node]s; a symbolic link holds
      what it points to, so links never form a cycle.  A [Path] is the
      list of the components below the root of the tree.
    - [fnmatch.fnmatch] and the rendering of a time stamp in local time
      belong to the Python library and to the host: they are variables of
      the section [Renderer]. *)

From Stdlib Require Import ZArith Lia Bool List Ascii String DecimalString
  Permutation Sorted.
From stdpp Require Import gmap strings sorting.

Set Warnings "-register-all".
Local Open Scope Z_scope.

(** ** Text *)

Definition ESC : ascii := "027"%char.
Definition NL : string := String "010"%char "".

(** [colorama.Fore.BLUE], [GREEN] and [WHITE]: the ANSI sequences
    ESC [ 3 4 m, ESC [ 3 2 m and ESC [ 3 7 m. *)
Definition Fore_BLUE : string := String ESC "[34m".
Definition Fore_GREEN : string := String ESC "[32m".
Definition Fore_WHITE : string := String ESC "[37m".

(** [str(n)] for an [int]. *)
Definition str_of_int (n : Z) : string := NilZero.string_of_int (Z.to_int n).

(** [bool(s)] for a [str]: the empty string is false. *)
Definition truthy (s : string) : bool :=
  match s with EmptyString => false | String _ _ => true end.

(** ** The file system *)

(** What a path refers to: a regular file, a directory with its listing,
    something that is neither ([is_dir()] and [is_file()] both false: a
    FIFO, a socket, a device), or a symbolic link with what it points to.
    (A link that points nowhere, on which [stat()] raises, is left out.) *)
Inductive node : Type :=
| File (st_size : Z) (st_mtime : Z)
| Dir (st_mtime : Z) (listing : list (string * node))
| Other (st_mtime : Z)
| Link (target : node).

(** A [Path] object yielded by [iterdir()]: its [name] and what it
    refers to. *)
Definition Entry : Type := (string * node)%type.

Definition name (e : Entry) : string := fst e.

(** [is_dir()], [is_file()], [stat()] and [iterdir()] follow symbolic
    links: they look at the node in which a chain of links ends. *)
Fixpoint follow (n : node) : node :=
  match n with Link target => follow target | _ => n end.

Definition node_is_dir (n : node) : bool :=
  match follow n with Dir _ _ => true | _ => false end.
Definition node_is_file (n : node) : bool :=
  match follow n with File _ _ => true | _ => false end.

Definition is_dir (e : Entry) : bool := node_is_dir (snd e).
Definition is_file (e : Entry) : bool := node_is_file (snd e).

(** [is_symlink()]. *)
Definition is_symlink (e : Entry) : bool :=
  match snd e with Link _ => true | _ => false end.

Definition st_mtime (e : Entry) : Z :=
  match follow (snd e) with
  | File _ t => t | Dir t _ => t | Other t => t | Link _ => 0
  end.

(** [stat().st_size]; only read on regular files. *)
Definition st_size (e : Entry) : Z :=
  match follow (snd e) with File s _ => s | _ => 0 end.

(** [path.iterdir()], in the order the host lists the directory.  Python
    raises [NotADirectoryError] on anything else; the renderer only lists
    paths it has tested with [is_dir()]. *)
Definition iterdir (n : node) : list Entry :=
  match follow n with Dir _ l => l | _ => [] end.

Fixpoint height (n : node) : nat :=
  match n with
  | Dir _ l => S (fold_right (fun e h => Nat.max (height (snd e)) h) O l)
  | Link target => height target
  | _ => O
  end.

(** The recursion of [rglob]: the paths below a directory that is not a
    symbolic link.  A link to a directory is yielded by its parent and
    not entered. *)
Fixpoint rglob_below (n : node) : list Entry :=
  match n with
  | Dir _ l => flat_map (fun e => e :: rglob_below (snd e)) l
  | _ => []
  end.

(** [path.rglob('*')]: every path below [path], hidden ones too.  The
    directory listed first is [path] itself, through links. *)
Definition rglob (path : node) : list Entry := rglob_below (follow path).

(** Every path beneath a directory, links to directories entered too. *)
Fixpoint beneath (n : node) : list Entry :=
  match n with
  | Dir _ l => flat_map (fun e => e :: beneath (snd e)) l
  | Link target => beneath target
  | _ => []
  end.

(** ** Paths below the root of the file system *)

Definition Path : Type := list string.

(** [path.name]: the last component; [Path('.')] has the empty name. *)
Definition path_name (p : Path) : string := List.last p "".

(** [str(path)]. *)
Definition path_str (p : Path) : string :=
  match p with [] => "." | _ => String.concat "/" p end.

(** [path / child]. *)
Definition path_join (p : Path) (child : string) : Path := p ++ [child].

Definition lookup_child (l : list Entry) (child : string) : option node :=
  snd <$> List.find (fun e => String.eqb (name e) child) l.

Fixpoint resolve (fs : node) (p : Path) : option node :=
  match p with
  | [] => Some fs
  | c :: p' =>
      match lookup_child (iterdir fs) c with
      | Some n => resolve n p'
      | None => None
      end
  end.

(** [path.is_dir()] for a path that may not exist. *)
Definition path_is_dir (fs : node) (p : Path) : bool :=
  match resolve fs p with Some n => node_is_dir n | None => false end.

(** [open(p, 'w')] succeeds when the parent of [p] is a directory and [p]
    itself is not one (access rights are not part of the model). *)
Definition can_open_w (fs : node) (p : Path) : bool :=
  path_is_dir fs (removelast p) && negb (path_is_dir fs p).

(** ** The renderer's configuration *)

Record TreeDrawer : Type := {
  path : Path;
  show_files : bool;
  ignored_patterns : gset string;
  show_modified_time : bool;
  show_size : bool;
  show_hidden : bool
}.

Definition __init__ (path : Path) (ignored : list string)
    (show_files show_modified_time show_size show_hidden : bool) : TreeDrawer :=
  {| path := path;
     show_files := show_files;
     ignored_patterns := list_to_set ignored;
     show_modified_time := show_modified_time;
     show_size := show_size;
     show_hidden := show_hidden |}.

Definition __FORK_STRING : string := Fore_WHITE +:+ "├──".
Definition __CORNER_STRING : string := Fore_WHITE +:+ "└──".
Definition __WALL_STRING : string := Fore_WHITE +:+ "│  ".
Definition __SPACE_STRING : string := "   ".

(** [name.startswith('.')]. *)
Definition _is_hidden (name : string) : bool := String.prefix "." name.

(** ** Numbers: [int / int] and the format [.1f] *)

(** A finite binary64 value, [mant * 2 ^ expo] with [|mant| <= 2^53].
    (Python raises [OverflowError] when a quotient reaches [2^1024]; byte
    counts stay far below, and the exponent range is left out.) *)
Record float : Type := { mant : Z; expo : Z }.

(** The integer nearest to [a / b], ties to the even one ([0 <= a], [0 < b]). *)
Definition round_half_even (a b : Z) : Z :=
  let q := a / b in
  match 2 * (a mod b) ?= b with
  | Lt => q
  | Gt => q + 1
  | Eq => if Z.even q then q else q + 1
  end.

(** The integer nearest to [a / (b * 2 ^ e)], for any sign of [e]. *)
Definition round_scaled (a b e : Z) : Z :=
  if 0 <=? e then round_half_even a (b * 2 ^ e)
  else round_half_even (a * 2 ^ (- e)) b.

Definition floor_scaled (a b e : Z) : Z :=
  if 0 <=? e then a / (b * 2 ^ e) else (a * 2 ^ (- e)) / b.

(** [a / b] on two [int]s, [0 < b]: the quotient correctly rounded to 53
    significant bits, as CPython computes it. *)
Definition true_div (a b : Z) : float :=
  if a =? 0 then {| mant := 0; expo := 0 |}
  else
    let m := Z.abs a in
    let e0 := Z.log2 m - Z.log2 b - 53 in
    let e := if floor_scaled m b e0 <? 2 ^ 53 then e0 else e0 + 1 in
    {| mant := Z.sgn a * round_scaled m b e; expo := e |}.

(** [f'{x:.1f}']: the decimal with one fractional digit nearest to the
    exact value of [x], ties to even. *)
Definition format_1f (x : float) : string :=
  let tenths := round_scaled (10 * Z.abs (mant x)) 1 (- expo x) in
  (if mant x <? 0 then "-" else "") +:+
  str_of_int (tenths / 10) +:+ "." +:+ str_of_int (tenths mod 10).

Definition _get_size (size : Z) : string :=
  if size <? 1024 then
    "(" +:+ str_of_int size +:+ " B)"
  else if size <? 1024 * 1024 then
    "(" +:+ format_1f (true_div size 1024) +:+ " KB)"
  else
    "(" +:+ format_1f (true_div size (1024 * 1024)) +:+ " MB)".

(** ** [list.sort(key=...)] *)

(** [a < b] on the tuples [(x.is_file(), x.name)]. *)
Definition key_lt (a b : bool * string) : bool :=
  match fst a, fst b with
  | false, true => true
  | true, false => false
  | _, _ => String.ltb (snd a) (snd b)
  end.

Definition sort_key (x : Entry) : bool * string := (is_file x, name x).

(** [a <= b] as the sort sees it: not [b < a]. *)
Definition key_le (a b : bool * string) : Prop := key_lt b a = false.
Definition entry_le (a b : Entry) : Prop := key_le (sort_key a) (sort_key b).

(** A stable sort that only asks [<] of the keys, as [list.sort] does. *)
Fixpoint insert_by {A K : Type} (lt : K -> K -> bool) (key : A -> K)
    (x : A) (l : list A) : list A :=
  match l with
  | [] => [x]
  | y :: l' => if lt (key y) (key x) then y :: insert_by lt key x l' else x :: l
  end.

Definition sort_by {A K : Type} (lt : K -> K -> bool) (key : A -> K)
    (l : list A) : list A :=
  fold_right (insert_by lt key) [] l.

(** [enumerate(l)]. *)
Definition enumerate {A : Type} (l : list A) : list (nat * A) :=
  combine (seq 0 (length l)) l.

(** ** [str.replace(old, new)] for a non-empty [old] *)

(** Left to right, without overlap: [skip] counts the characters of the
    occurrence just replaced that are still to be passed over. *)
Fixpoint replace_from (old new : string) (skip : nat) (s : string) : string :=
  match s with
  | EmptyString => EmptyString
  | String c s' =>
      match skip with
      | S k => replace_from old new k s'
      | O =>
          if String.prefix old s
          then new +:+ replace_from old new (String.length old - 1) s'
          else String c (replace_from old new 0 s')
      end
  end.

Definition replace (old new s : string) : string := replace_from old new 0 s.

(** ** Instances of the two host functions, used by the examples *)

(** Shell patterns in the manner of [fnmatch] on a case-sensitive host:
    [*], [?], [[seq]] and [[!seq]] with ranges; an unclosed bracket is an
    ordinary character. *)
Inductive glob_token : Type :=
| GStar
| GAny
| GClass (negated : bool) (ranges : list (ascii * ascii))
| GLit (c : ascii).

Fixpoint class_items (l : list ascii) : list (ascii * ascii) :=
  match l with
  | a :: "-"%char :: b :: l' => (a, b) :: class_items l'
  | a :: l' => (a, a) :: class_items l'
  | [] => []
  end.

Fixpoint until_bracket (s : string) : option (list ascii * string) :=
  match s with
  | EmptyString => None
  | String c r =>
      if Ascii.eqb c "]" then Some ([], r)
      else match until_bracket r with
           | Some (l, r') => Some (c :: l, r')
           | None => None
           end
  end.

Definition parse_class (s : string) : option (bool * list ascii * string) :=
  let '(neg, s1) :=
    match s with
    | String c r => if Ascii.eqb c "!" then (true, r) else (false, s)
    | EmptyString => (false, s)
    end in
  match s1 with
  | String c r =>
      if Ascii.eqb c "]"
      then match until_bracket r with
           | Some (l, r') => Some (neg, c :: l, r')
           | None => None
           end
      else match until_bracket s1 with
           | Some (l, r') => Some (neg, l, r')
           | None => None
           end
  | EmptyString => None
  end.

Fixpoint tokenize (fuel : nat) (p : string) : list glob_token :=
  match fuel, p with
  | S f, String c r =>
      if Ascii.eqb c "*" then GStar :: tokenize f r
      else if Ascii.eqb c "?" then GAny :: tokenize f r
      else if Ascii.eqb c "["
      then match parse_class r with
           | Some (neg, l, r') => GClass neg (class_items l) :: tokenize f r'
           | None => GLit c :: tokenize f r
           end
      else GLit c :: tokenize f r
  | _, _ => []
  end.

Definition token_accepts (t : glob_token) (c : ascii) : bool :=
  match t with
  | GStar | GAny => true
  | GLit d => Ascii.eqb c d
  | GClass neg rs =>
      xorb neg (existsb (fun '(lo, hi) => Ascii.leb lo c && Ascii.leb c hi) rs)
  end.

Fixpoint match_tokens (ts : list glob_token) : string -> bool :=
  match ts with
  | [] => fun s => String.eqb s ""
  | GStar :: ts' =>
      fix star (s : string) : bool :=
        match_tokens ts' s ||
        match s with String _ s' => star s' | EmptyString => false end
  | t :: ts' =>
      fun s =>
        match s with
        | String c s' => token_accepts t c && match_tokens ts' s'
        | EmptyString => false
        end
  end.

Definition glob (name pattern : string) : bool :=
  match_tokens (tokenize (S (String.length pattern)) pattern) name.

(** [strftime('%Y-%m-%d %H:%M')] of a time stamp in seconds, for a host
    whose local time is UTC. *)
Definition pad (width : nat) (s : string) : string :=
  String.string_of_list_ascii (repeat "0"%char (width - String.length s)) +:+ s.

Definition civil_from_days (days : Z) : Z * Z * Z :=
  let z := days + 719468 in
  let era := z / 146097 in
  let doe := z - era * 146097 in
  let yoe := (doe - doe / 1460 + doe / 36524 - doe / 146096) / 365 in
  let doy := doe - (365 * yoe + yoe / 4 - yoe / 100) in
  let mp := (5 * doy + 2) / 153 in
  let d := doy - (153 * mp + 2) / 5 + 1 in
  let m := if mp <? 10 then mp + 3 else mp - 9 in
  let y := yoe + era * 400 + (if m <=? 2 then 1 else 0) in
  (y, m, d).

Definition strftime_utc (t : Z) : string :=
  let '(y, m, d) := civil_from_days (t / 86400) in
  let secs := t mod 86400 in
  pad 4 (str_of_int y) +:+ "-" +:+ pad 2 (str_of_int m) +:+ "-" +:+
  pad 2 (str_of_int d) +:+ " " +:+ pad 2 (str_of_int (secs / 3600)) +:+ ":" +:+
  pad 2 (str_of_int (secs mod 3600 / 60)).

(** ** Example data *)

(** A project directory [proj] next to an empty directory [out]. *)
Definition sample_root : node :=
  Dir 1700000000
    [("root.txt", File 100 1700000000);
     (".env", File 7 1700000000);
     ("b", Dir 1700000100
        [("z.pyc", File 2048 1700000000); ("y.txt", File 1 0)]);
     ("a", Dir 1700000000 [("x.txt", File 500 1700000000)]);
     (".cache", Dir 1700000000 [(".lock", File 3000 1700000000)]);
     ("pipe", Other 5)].

Definition sample_fs : node :=
  Dir 1700000000 [("proj", sample_root); ("out", Dir 0 [])].

Definition sample_drawer : TreeDrawer :=
  __init__ ["proj"] ["*.pyc"; "*.log"] true false false false.

Definition sample_drawer_all : TreeDrawer :=
  __init__ ["proj"] [] true true true true.

Definition sample_drawer_dirs : TreeDrawer :=
  __init__ ["proj"] [] false false false true.

Definition sample_drawer_plain : TreeDrawer :=
  __init__ ["proj"] [] true false false false.

(** The project directory as another host might list it. *)
Definition sample_root_relisted : node :=
  Dir 1700000000 (rev (iterdir sample_root)).

(** A root with one directory [a] holding [x.txt], and one file. *)
Definition scenario_fs : node :=
  Dir 0 [("root", Dir 0 [("root.txt", File 100 0);
                         ("a", Dir 0 [("x.txt", File 500 0)])])].

(** A root whose own name starts with a dot. *)
Definition dotted_fs : node :=
  Dir 0 [(".git", Dir 0 [("config", File 10 0)])].

Definition dotted_drawer : TreeDrawer :=
  __init__ [".git"] [] true false false false.

(** A root [r] that lists a regular file, an empty directory and a FIFO. *)
Definition mixed_root : node :=
  Dir 0 [("b.txt", File 1 0); ("z", Dir 0 []); ("m", Other 0)].

Definition mixed_fs : node := Dir 0 [("r", mixed_root)].

Definition mixed_drawer : TreeDrawer :=
  __init__ ["r"] [] true false false false.




(** File names that contain the ESC character: the first is a blue marker
    inside the two halves of a white one, the second a white marker inside
    the two halves of a blue one. *)
Definition split_white_name : string :=
  String ESC "[3" +:+ Fore_BLUE +:+ "7m".
Definition split_blue_name : string :=
  String ESC "[3" +:+ Fore_WHITE +:+ "4m".

Definition escape_fs (file_name : string) : node :=
  Dir 0 [("d", Dir 0 [(file_name, File 1 0)]); ("out", Dir 0 [])].

Definition escape_drawer : TreeDrawer :=
  __init__ ["d"] [] true false false false.

(** ** Exceptions and output *)

Inductive exn : Type :=
| ValueError (msg : string)
| OSError.

(** What a call leaves behind: lines sent to standard output by [print]
    and files written, oldest first. *)
Inductive effect : Type :=
| Print (text : string)
| WriteFile (file : Path) (content : string).

(** A computation that may raise and that appends to the trace of
    effects. *)
Definition io (A : Type) : Type := list effect -> (exn + A) * list effect.

Definition ret {A : Type} (a : A) : io A := fun tr => (inr a, tr).
Definition raise {A : Type} (e : exn) : io A := fun tr => (inl e, tr).
Definition bind {A B : Type} (m : io A) (k : A -> io B) : io B :=
  fun tr =>
    match m tr with
    | (inr a, tr') => k a tr'
    | (inl e, tr') => (inl e, tr')
    end.
Definition emit (e : effect) : io unit := fun tr => (inr tt, tr ++ [e]).

Notation "x <- m ;; k" := (bind m (fun x => k))
  (at level 100, m at next level, right associativity).
Notation "m ;;; k" := (bind m (fun _ => k))
  (at level 100, right associativity).

(** [with open(p, 'w', encoding='utf-8') as file: file.write(content)]. *)
Definition write_text (fs : node) (p : Path) (content : string) : io unit :=
  if can_open_w fs p then emit (WriteFile p content) else raise OSError.

(** ** Notions used in the statements *)



(** The bytes of the regular files beneath a directory that are found
    without passing through a symbolic link to a directory; a link to a
    regular file counts with the size of the file. *)
Fixpoint counted_bytes (n : node) : Z :=
  match n with
  | Dir _ l =>
      fold_right
        (fun e acc =>
           (if is_file e then st_size e else counted_bytes (snd e)) + acc)
        0 l
  | _ => 0
  end.

(** The coloured name with which the label of an entry starts (lines 139
    and 146). *)
Definition coloured_name (e : Entry) : string :=
  if is_dir e then Fore_BLUE +:+ name e +:+ "/" else Fore_GREEN +:+ name e.

Definition is_marker (m : string) : Prop :=
  m = Fore_BLUE \/ m = Fore_GREEN \/ m = Fore_WHITE.

Definition starts_marker (s : string) : bool :=
  String.prefix Fore_BLUE s || String.prefix Fore_GREEN s ||
  String.prefix Fore_WHITE s.

(** A text with every colour marker that occurs in it taken out, and
    nothing else: one pass that drops the five characters of each
    occurrence. *)
Fixpoint strip_from (skip : nat) (s : string) : string :=
  match s with
  | EmptyString => EmptyString
  | String c s' =>
      match skip with
      | S k => strip_from k s'
      | O => if starts_marker s then strip_from 4 s'
             else String c (strip_from 0 s')
      end
  end.

Definition strip_markers (s : string) : string := strip_from 0 s.

(** No ESC character in a text. *)
Fixpoint esc_free (s : string) : bool :=
  match s with
  | EmptyString => true
  | String c s' => negb (Ascii.eqb c ESC) && esc_free s'
  end.

(** Texts made of colour markers and of characters other than ESC. *)
Inductive styled : string -> Prop :=
| styled_nil : styled ""
| styled_char c s : c <> ESC -> styled s -> styled (String c s)
| styled_mark m s : is_marker m -> styled s -> styled (m +:+ s).

(** The names of a directory listing are pairwise distinct. *)
Definition distinct_names (path : node) : Prop :=
  NoDup (map name (iterdir path)).

(** ** The methods of [TreeDrawer] *)

Section Renderer.

Set Default Proof Using "Type".

(** [fnmatch.fnmatch(name, pattern)]. *)
Variable fnmatch : string -> string -> bool.
(** [datetime.fromtimestamp(t).strftime('%Y-%m-%d %H:%M')]. *)
Variable strftime : Z -> string.

Definition _is_ignored (self : TreeDrawer) (name : string) : bool :=
  existsb (fun pattern => fnmatch name pattern) (elements (ignored_patterns self)).

Definition _get_directory_size (self : TreeDrawer) (path : node) : string :=
  let total_size :=
    fold_left Z.add (map st_size (List.filter is_file (rglob path))) 0 in
  _get_size total_size.

(** The sum that [_get_directory_size] formats (line 108). *)
Definition total_size (path : node) : Z :=
  fold_left Z.add (map st_size (List.filter is_file (rglob path))) 0.

Definition modified_note (modified_time : string) : string :=
  " " +:+ Fore_WHITE +:+ "[Modified: " +:+ modified_time +:+ "]".
Definition size_note (size : string) : string :=
  " " +:+ Fore_WHITE +:+ "[Size: " +:+ size +:+ "]".

(** Lines 122 to 130: the children of [path] that are shown, in the order
    they are shown. *)
Definition shown_entries (self : TreeDrawer) (path : node) : list Entry :=
  let entries :=
    List.filter (fun e => negb (_is_ignored self (name e))) (iterdir path) in
  let entries :=
    if negb (show_files self) then List.filter (fun e => is_dir e) entries
    else entries in
  let entries :=
    if negb (show_hidden self)
    then List.filter (fun e => negb (_is_hidden (name e))) entries
    else entries in
  sort_by key_lt sort_key entries.

(** The three tests of lines 122 to 128 as one. *)
Definition visible (self : TreeDrawer) (e : Entry) : bool :=
  negb (_is_ignored self (name e)) &&
  (show_files self || is_dir e) &&
  (show_hidden self || negb (_is_hidden (name e))).

(** Lines 135 to 154: the line of one entry. *)
Definition entry_line (self : TreeDrawer) (prefix connector : string)
    (entry : Entry) : string :=
  if is_dir entry then
    let modified_time :=
      if show_modified_time self then strftime (st_mtime entry) else "" in
    let size :=
      if show_size self then _get_directory_size self (snd entry) else "" in
    let line := prefix +:+ connector +:+ " " +:+ Fore_BLUE +:+ name entry +:+ "/" in
    if truthy modified_time || truthy size then
      let line :=
        if truthy modified_time then line +:+ modified_note modified_time
        else line in
      if truthy size then line +:+ size_note size else line
    else line
  else
    let line := prefix +:+ connector +:+ " " +:+ Fore_GREEN +:+ name entry in
    let line :=
      if show_modified_time self
      then line +:+ modified_note (strftime (st_mtime entry))
      else line in
    if show_size self && is_file entry
    then line +:+ size_note (_get_size (st_size entry))
    else line.

(** The body of [_tree_structure], with [rec] for the recursive call. *)
Definition tree_body (rec : node -> string -> list string)
    (self : TreeDrawer) (path : node) (prefix : string) : list string :=
  let entries := shown_entries self path in
  fold_left
    (fun result '(i, entry) =>
       let connector :=
         if Nat.eqb i (length entries - 1) then __CORNER_STRING
         else __FORK_STRING in
       let line := entry_line self prefix connector entry in
       let result := result ++ [line] in
       if is_dir entry then
         result ++ rec (snd entry)
                    (prefix +:+ (if Nat.eqb i (length entries - 1)
                                 then __SPACE_STRING else __WALL_STRING))
       else result)
    (enumerate entries) [].

(** The recursion of [_tree_structure] descends into children only, so
    [height path] nested calls reach every directory below [path]. *)
Fixpoint tree_structure_upto (depth : nat) (self : TreeDrawer)
    (path : node) (prefix : string) : list string :=
  match depth with
  | O => []
  | S d => tree_body (tree_structure_upto d self) self path prefix
  end.

Definition _tree_structure (self : TreeDrawer) (path : node)
    (prefix : string) : list string :=
  tree_structure_upto (height path) self path prefix.

(** Lines 177 to 186 of [draw]: the line of the root. *)
Definition root_line (self : TreeDrawer) (root : node) : string :=
  let root_modified_time :=
    if show_modified_time self
    then strftime (st_mtime (path_name (path self), root)) else "" in
  let root_size :=
    if show_size self then _get_directory_size self root else "" in
  let result0 := Fore_BLUE +:+ path_name (path self) +:+ "/" in
  if truthy root_modified_time || truthy root_size then
    let result0 :=
      if truthy root_modified_time
      then result0 +:+ modified_note root_modified_time else result0 in
    if truthy root_size then result0 +:+ size_note root_size else result0
  else result0.

Definition draw (self : TreeDrawer) (fs : node) (as_string : bool)
    (save_path : option Path) : io string :=
  match resolve fs (path self) with
  | Some root =>
      if negb (node_is_dir root) then
        raise (ValueError "The specified path is not a directory.")
      else
        let result := root_line self root :: _tree_structure self root "" in
        let output := String.concat NL result in
        match save_path with
        | Some save_path =>
            let save_path := path_join save_path "tree_structure.txt" in
            write_text fs save_path
              (replace Fore_WHITE ""
                 (replace Fore_GREEN "" (replace Fore_BLUE "" output))) ;;;
            emit (Print ("Tree structure saved to " +:+ path_str save_path))
        | None => ret tt
        end ;;;
        if as_string then ret output
        else emit (Print output) ;;; ret ""
  | None => raise (ValueError "The specified path is not a directory.")
  end.

(** *** The same walk, keeping the parts of each line apart *)

Definition connector_at (n i : nat) : string :=
  if Nat.eqb i (n - 1) then __CORNER_STRING else __FORK_STRING.
Definition segment_at (n i : nat) : string :=
  if Nat.eqb i (n - 1) then __SPACE_STRING else __WALL_STRING.

(** One rendered line before it is put together: the prefix handed to the
    call that emitted it, the connector chosen, and the entry. *)
Record row : Type := {
  row_prefix : string;
  row_connector : string;
  row_entry : Entry
}.

Definition render (self : TreeDrawer) (r : row) : string :=
  entry_line self (row_prefix r) (row_connector r) (row_entry r).

Definition rows_body (rec : node -> string -> list row)
    (self : TreeDrawer) (path : node) (prefix : string) : list row :=
  let entries := shown_entries self path in
  flat_map
    (fun '(i, entry) =>
       {| row_prefix := prefix;
          row_connector := connector_at (length entries) i;
          row_entry := entry |} ::
       (if is_dir entry
        then rec (snd entry) (prefix +:+ segment_at (length entries) i)
        else []))
    (enumerate entries).

Fixpoint tree_rows_upto (depth : nat) (self : TreeDrawer)
    (path : node) (prefix : string) : list row :=
  match depth with
  | O => []
  | S d => rows_body (tree_rows_upto d self) self path prefix
  end.

Definition _tree_rows (self : TreeDrawer) (path : node)
    (prefix : string) : list row :=
  tree_rows_upto (height path) self path prefix.

(** The rows emitted by the call with prefix [prefix] itself, leaving out
    those of the calls it makes. *)
Definition level_rows (prefix : string) (rows : list row) : list row :=
  List.filter (fun r => String.eqb (row_prefix r) prefix) rows.

(** ** Strings and lists *)

Lemma append_cons (c : ascii) (a b : string) :
  String c a +:+ b = String c (a +:+ b).
Proof. reflexivity. Qed.

Lemma append_nil_l (s : string) : "" +:+ s = s.
Proof. reflexivity. Qed.

Lemma append_nil_r (s : string) : s +:+ "" = s.
Proof.
  induction s as [|c s IH]; [reflexivity|]. now rewrite append_cons, IH.
Qed.

Lemma append_assoc (a b c : string) : (a +:+ b) +:+ c = a +:+ (b +:+ c).
Proof.
  induction a as [|x a IH]; [reflexivity|]. now rewrite !append_cons, IH.
Qed.

Lemma length_append (a b : string) :
  String.length (a +:+ b) = (String.length a + String.length b)%nat.
Proof.
  induction a as [|x a IH]; [reflexivity|]. rewrite append_cons. cbn.
  now rewrite IH.
Qed.

Lemma prefix_append (a b : string) : String.prefix a (a +:+ b) = true.
Proof.
  induction a as [|x a IH]; [now destruct b|].
  rewrite append_cons. cbn. destruct (ascii_dec x x); [exact IH | congruence].
Qed.

Lemma append_neq_self (a b : string) : b <> "" -> a +:+ b <> a.
Proof.
  intros Hb Heq. apply (f_equal String.length) in Heq.
  rewrite length_append in Heq. destruct b; [congruence | cbn in Heq; lia].
Qed.

Lemma fold_left_blocks {A B : Type} (f : A -> list B) (l : list A) (acc : list B) :
  fold_left (fun r x => r ++ f x) l acc = acc ++ flat_map f l.
Proof.
  revert acc. induction l as [|x l IH]; intros acc; cbn.
  - now rewrite app_nil_r.
  - now rewrite IH, app_assoc.
Qed.

Lemma fold_left_ext_eq {A B : Type} (f g : B -> A -> B) (l : list A) (acc : B) :
  (forall r x, f r x = g r x) -> fold_left f l acc = fold_left g l acc.
Proof.
  intros H. revert acc. induction l as [|x l IH]; intros acc; cbn; [reflexivity|].
  now rewrite H, IH.
Qed.

Lemma flat_map_ext_In {A B : Type} (f g : A -> list B) (l : list A) :
  (forall x, In x l -> f x = g x) -> flat_map f l = flat_map g l.
Proof.
  induction l as [|x l IH]; intros H; cbn; [reflexivity|].
  rewrite (H x) by now left. f_equal. apply IH. intros y Hy. apply H. now right.
Qed.

Lemma map_flat_map {A B C : Type} (g : B -> C) (f : A -> list B) (l : list A) :
  map g (flat_map f l) = flat_map (fun x => map g (f x)) l.
Proof.
  induction l as [|x l IH]; cbn; [reflexivity|]. now rewrite map_app, IH.
Qed.

Lemma filter_flat_map {A B : Type} (p : B -> bool) (f : A -> list B) (l : list A) :
  List.filter p (flat_map f l) = flat_map (fun x => List.filter p (f x)) l.
Proof.
  induction l as [|x l IH]; cbn; [reflexivity|]. now rewrite List.filter_app, IH.
Qed.

Lemma flat_map_singleton {A B : Type} (f : A -> B) (l : list A) :
  flat_map (fun x => [f x]) l = map f l.
Proof. induction l as [|x l IH]; cbn; [reflexivity|]. now rewrite IH. Qed.

Lemma filter_none {A : Type} (p : A -> bool) (l : list A) :
  (forall x, In x l -> p x = false) -> List.filter p l = [].
Proof.
  induction l as [|x l IH]; intros H; cbn; [reflexivity|].
  rewrite (H x) by now left. apply IH. intros y Hy. apply H. now right.
Qed.

Lemma enumerate_snd {A : Type} (l : list A) : map snd (enumerate l) = l.
Proof.
  unfold enumerate. generalize 0%nat.
  induction l as [|x l IH]; intros n; cbn; [reflexivity|]. now rewrite IH.
Qed.

Lemma enumerate_fst {A : Type} (l : list A) :
  map fst (enumerate l) = seq 0 (length l).
Proof.
  unfold enumerate. generalize 0%nat.
  induction l as [|x l IH]; intros n; cbn; [reflexivity|]. now rewrite IH.
Qed.

Lemma enumerate_In {A : Type} (l : list A) (i : nat) (x : A) :
  In (i, x) (enumerate l) -> l !! i = Some x.
Proof.
  unfold enumerate.
  assert (H : forall k, In (i, x) (combine (seq k (length l)) l) ->
                        (k <= i)%nat /\ l !! (i - k)%nat = Some x).
  { induction l as [|y l IH]; intros k; cbn; [tauto|].
    intros [Heq | Hin].
    - injection Heq as -> ->. split; [lia|]. now rewrite Nat.sub_diag.
    - apply IH in Hin as [Hle Hl]. split; [lia|].
      replace (i - k)%nat with (S (i - S k)) by lia. exact Hl. }
  intros Hin. apply H in Hin as [_ Hl]. now rewrite Nat.sub_0_r in Hl.
Qed.

Lemma enumerate_lookup {A : Type} (l : list A) (i : nat) (x : A) :
  l !! i = Some x -> In (i, x) (enumerate l).
Proof.
  unfold enumerate.
  assert (H : forall k j, l !! j = Some x ->
                          In ((k + j)%nat, x) (combine (seq k (length l)) l)).
  { induction l as [|y l IH]; intros k j Hj; [discriminate|].
    destruct j as [|j]; cbn in Hj |- *.
    - injection Hj as ->. left. f_equal. lia.
    - right. replace (k + S j)%nat with (S k + j)%nat by lia. now apply IH. }
  intros Hi. exact (H 0%nat i Hi).
Qed.

(** ** The order of the sort keys *)

Lemma string_compare_refl (s : string) : String.compare s s = Eq.
Proof.
  induction s as [|c s IH]; [reflexivity|]. cbn.
  unfold Ascii.compare. now rewrite N.compare_refl.
Qed.

Lemma string_ltb_irrefl (s : string) : String.ltb s s = false.
Proof. unfold String.ltb. now rewrite string_compare_refl. Qed.

Lemma string_ltb_leb (a b : string) : String.ltb b a = negb (String.leb a b).
Proof.
  unfold String.ltb, String.leb. rewrite (String.compare_antisym a b).
  now destruct (String.compare b a).
Qed.

Lemma string_leb_trans (a b c : string) :
  String.leb a b = true -> String.leb b c = true -> String.leb a c = true.
Proof.
  intros H1%Is_true_true H2%Is_true_true. apply Is_true_true.
  exact (transitivity (R := String.le) H1 H2).
Qed.

Lemma string_ltb_total (a b : string) :
  String.ltb a b = false -> String.ltb b a = false -> a = b.
Proof.
  rewrite !string_ltb_leb, !negb_false_iff. intros H1 H2.
  apply String.leb_antisym; assumption.
Qed.

Lemma key_le_spec (a b : bool * string) :
  key_le a b <->
  (fst a = false /\ fst b = true) \/
  (fst a = fst b /\ String.leb (snd a) (snd b) = true).
Proof.
  clear. unfold key_le, key_lt. destruct a as [[|] x], b as [[|] y]; cbn;
    rewrite ?string_ltb_leb, ?negb_false_iff; intuition congruence.
Qed.

Lemma key_le_trans (a b c : bool * string) : key_le a b -> key_le b c -> key_le a c.
Proof.
  rewrite !key_le_spec. intros [[Ha Hb] | [Hab Hl1]] [[Hb' Hc] | [Hbc Hl2]].
  - congruence.
  - left. split; congruence.
  - left. split; congruence.
  - right. split; [congruence|]. eapply string_leb_trans; eassumption.
Qed.

Lemma key_lt_asym (a b : bool * string) : key_lt a b = true -> key_le a b.
Proof.
  unfold key_le, key_lt. destruct a as [[|] x], b as [[|] y]; cbn; try congruence;
    rewrite !string_ltb_leb, negb_true_iff, negb_false_iff;
    intros H; destruct (String.leb_total x y) as [Hl | Hl]; congruence.
Qed.

Lemma key_lt_total (a b : bool * string) :
  key_lt a b = false -> key_lt b a = false -> a = b.
Proof.
  unfold key_lt. destruct a as [[|] x], b as [[|] y]; cbn; try congruence;
    intros H1 H2; f_equal; now apply string_ltb_total.
Qed.

(** ** [sort_by] sorts *)

Lemma insert_by_perm {A K : Type} (lt : K -> K -> bool) (key : A -> K) x l :
  Permutation (insert_by lt key x l) (x :: l).
Proof.
  induction l as [|y l IH]; cbn; [reflexivity|].
  destruct (lt (key y) (key x)); [|reflexivity].
  rewrite IH. apply perm_swap.
Qed.

Lemma sort_by_perm {A K : Type} (lt : K -> K -> bool) (key : A -> K) l :
  Permutation (sort_by lt key l) l.
Proof.
  induction l as [|x l IH]; cbn; [reflexivity|].
  now rewrite insert_by_perm, IH.
Qed.

Lemma sort_by_In {A K : Type} (lt : K -> K -> bool) (key : A -> K) l x :
  In x (sort_by lt key l) <-> In x l.
Proof.
  split; apply Permutation_in; [|symmetry]; apply sort_by_perm.
Qed.

Lemma insert_by_sorted (x : Entry) (l : list Entry) :
  StronglySorted entry_le l ->
  StronglySorted entry_le (insert_by key_lt sort_key x l).
Proof.
  induction 1 as [|y l Hs IH Hy]; cbn; [repeat constructor|].
  destruct (key_lt (sort_key y) (sort_key x)) eqn:Hlt.
  - constructor; [exact IH|].
    rewrite List.Forall_forall in *. intros z Hz.
    apply (Permutation_in _ (insert_by_perm _ _ _ _)) in Hz as [<- | Hz].
    + now apply key_lt_asym.
    + now apply Hy.
  - constructor; [now constructor|]. constructor; [exact Hlt|].
    rewrite List.Forall_forall in *. intros z Hz.
    apply key_le_trans with (sort_key y); [exact Hlt | now apply Hy].
Qed.

Lemma sort_by_sorted (l : list Entry) :
  StronglySorted entry_le (sort_by key_lt sort_key l).
Proof.
  induction l as [|x l IH]; cbn; [constructor | now apply insert_by_sorted].
Qed.

Lemma StronglySorted_lookup {A : Type} (R : A -> A -> Prop) (l : list A) :
  StronglySorted R l ->
  forall i j a b, (i < j)%nat -> l !! i = Some a -> l !! j = Some b -> R a b.
Proof.
  induction 1 as [|x l Hs IH Hx]; intros i j a b Hij Ha Hb; [discriminate|].
  destruct j as [|j]; [lia|]. cbn in Hb.
  destruct i as [|i]; cbn in Ha.
  - injection Ha as ->. rewrite List.Forall_forall in Hx. apply Hx.
    apply list_elem_of_In, list_elem_of_lookup. eauto.
  - apply (IH i j); [lia | assumption..].
Qed.

(** ** The shown entries of a directory *)

Lemma filter_filter_and {A : Type} (f g : A -> bool) (l : list A) :
  List.filter g (List.filter f l) = List.filter (fun x => f x && g x) l.
Proof.
  induction l as [|x l IH]; cbn; [reflexivity|].
  destruct (f x); cbn; [destruct (g x)|]; now rewrite IH.
Qed.

Lemma shown_entries_visible (self : TreeDrawer) (path : node) :
  shown_entries self path =
  sort_by key_lt sort_key (List.filter (visible self) (iterdir path)).
Proof.
  unfold shown_entries, visible.
  destruct (show_files self), (show_hidden self); cbn;
    rewrite ?filter_filter_and; f_equal; apply List.filter_ext; intros e;
    rewrite ?andb_true_r, ?andb_assoc; reflexivity.
Qed.

Lemma shown_entries_In (self : TreeDrawer) (path : node) (e : Entry) :
  In e (shown_entries self path) <->
  In e (iterdir path) /\ visible self e = true.
Proof. rewrite shown_entries_visible, sort_by_In. apply List.filter_In. Qed.

Lemma shown_entries_leaf (self : TreeDrawer) (path : node) :
  iterdir path = [] -> shown_entries self path = [].
Proof. intros H. now rewrite shown_entries_visible, H. Qed.

Lemma height_follow (n : node) : height (follow n) = height n.
Proof. clear. induction n; cbn; auto. Qed.

Lemma follow_idem (n : node) : follow (follow n) = follow n.
Proof. clear. induction n; cbn; auto. Qed.

Lemma follow_not_link (n target : node) : follow n <> Link target.
Proof. clear. induction n; cbn; auto; discriminate. Qed.

Lemma iterdir_follow (n : node) : iterdir (follow n) = iterdir n.
Proof. clear. unfold iterdir. now rewrite follow_idem. Qed.

Lemma node_is_dir_follow (n : node) : node_is_dir (follow n) = node_is_dir n.
Proof. clear. unfold node_is_dir. now rewrite follow_idem. Qed.

Lemma iterdir_not_dir (n : node) : node_is_dir n = false -> iterdir n = [].
Proof. clear. unfold node_is_dir, iterdir. now destruct (follow n). Qed.

Lemma height_child (path : node) (e : Entry) :
  In e (iterdir path) -> (height (snd e) < height path)%nat.
Proof.
  clear. rewrite <- (height_follow path). unfold iterdir.
  destruct (follow path) as [| t l | |]; cbn; try tauto.
  induction l as [|x l IH]; cbn; [tauto|].
  intros [-> | Hin]; [lia | apply IH in Hin; lia].
Qed.

Lemma height_0_leaf (path : node) : height path = 0%nat -> iterdir path = [].
Proof.
  clear. rewrite <- (height_follow path). unfold iterdir.
  destruct (follow path); cbn; try reflexivity. discriminate.
Qed.

(** A property holds of every path when it holds of a path as soon as it
    holds of the paths listed in it. *)
Lemma node_children_ind (P : node -> Prop) :
  (forall path, (forall e, In e (iterdir path) -> P (snd e)) -> P path) ->
  forall path, P path.
Proof.
  intros Hstep.
  assert (H : forall n path, (height path < n)%nat -> P path).
  { induction n as [|n IH]; intros path Hlt; [lia|].
    apply Hstep. intros e He. apply IH.
    apply height_child in He. lia. }
  intros path. apply (H (S (height path))). lia.
Qed.

(** ** The loop of [_tree_structure], entry by entry *)

Lemma tree_body_blocks (rec : node -> string -> list string)
    (self : TreeDrawer) (path : node) (prefix : string) :
  tree_body rec self path prefix =
  flat_map
    (fun '(i, entry) =>
       entry_line self prefix
         (connector_at (length (shown_entries self path)) i) entry ::
       (if is_dir entry
        then rec (snd entry)
               (prefix +:+ segment_at (length (shown_entries self path)) i)
        else []))
    (enumerate (shown_entries self path)).
Proof.
  unfold tree_body.
  rewrite fold_left_ext_eq with (g := fun r x =>
    r ++ (let '(i, entry) := x in
          entry_line self prefix
            (connector_at (length (shown_entries self path)) i) entry ::
          (if is_dir entry
           then rec (snd entry)
                  (prefix +:+ segment_at (length (shown_entries self path)) i)
           else []))).
  - now rewrite fold_left_blocks.
  - intros r [i e]. unfold connector_at, segment_at.
    destruct (is_dir e); [now rewrite <- app_assoc | reflexivity].
Qed.

Lemma lines_rows_upto (self : TreeDrawer) (d : nat) (path : node) (prefix : string) :
  tree_structure_upto d self path prefix =
  map (render self) (tree_rows_upto d self path prefix).
Proof.
  revert path prefix. induction d as [|d IH]; intros path prefix; [reflexivity|].
  cbn [tree_structure_upto tree_rows_upto].
  rewrite tree_body_blocks. unfold rows_body. rewrite map_flat_map.
  apply flat_map_ext_In. intros [i e] _. cbn [map]. unfold render at 1. cbn.
  f_equal. destruct (is_dir e); [apply IH | reflexivity].
Qed.

Lemma rows_body_ext (rec1 rec2 : node -> string -> list row)
    (self : TreeDrawer) (path : node) (prefix : string) :
  (forall e p, In e (iterdir path) -> rec1 (snd e) p = rec2 (snd e) p) ->
  rows_body rec1 self path prefix = rows_body rec2 self path prefix.
Proof.
  intros H. unfold rows_body. apply flat_map_ext_In. intros [i e] Hin.
  f_equal. destruct (is_dir e); [|reflexivity]. apply H.
  apply enumerate_In, list_elem_of_lookup_2, list_elem_of_In in Hin.
  now apply shown_entries_In in Hin.
Qed.

Lemma rows_body_leaf (rec : node -> string -> list row)
    (self : TreeDrawer) (path : node) (prefix : string) :
  iterdir path = [] -> rows_body rec self path prefix = [].
Proof. intros H. unfold rows_body. now rewrite shown_entries_leaf. Qed.

Lemma rows_upto_stable (self : TreeDrawer) (d1 d2 : nat) (path : node)
    (prefix : string) :
  (height path <= d1)%nat -> (height path <= d2)%nat ->
  tree_rows_upto d1 self path prefix = tree_rows_upto d2 self path prefix.
Proof.
  revert d2 path prefix.
  induction d1 as [|d1 IH]; intros [|d2] path prefix H1 H2; cbn;
    try reflexivity;
    try (rewrite rows_body_leaf; [reflexivity | apply height_0_leaf; lia]).
  apply rows_body_ext. intros e p He. apply height_child in He.
  apply IH; lia.
Qed.

(** The equation of the recursive function, as the source states it. *)
Lemma _tree_rows_unfold (self : TreeDrawer) (path : node) (prefix : string) :
  _tree_rows self path prefix = rows_body (_tree_rows self) self path prefix.
Proof.
  unfold _tree_rows at 1. destruct (height path) as [|h] eqn:Hh; cbn.
  - rewrite rows_body_leaf; [reflexivity | now apply height_0_leaf].
  - apply rows_body_ext. intros e p He. apply height_child in He.
    unfold _tree_rows. apply rows_upto_stable; lia.
Qed.

Lemma _tree_structure_rows (self : TreeDrawer) (path : node) (prefix : string) :
  _tree_structure self path prefix =
  map (render self) (_tree_rows self path prefix).
Proof. apply lines_rows_upto. Qed.

Lemma _tree_structure_unfold (self : TreeDrawer) (path : node) (prefix : string) :
  _tree_structure self path prefix =
  tree_body (_tree_structure self) self path prefix.
Proof.
  rewrite _tree_structure_rows, _tree_rows_unfold, tree_body_blocks.
  unfold rows_body. rewrite map_flat_map.
  apply flat_map_ext_In. intros [i e] _. cbn [map]. unfold render at 1. cbn.
  f_equal. destruct (is_dir e); [|reflexivity].
  now rewrite _tree_structure_rows.
Qed.

(** ** Prefixes and connectors *)

Lemma entry_line_split (self : TreeDrawer) (prefix connector : string) (e : Entry) :
  entry_line self prefix connector e =
  prefix +:+ connector +:+ entry_line self "" "" e.
Proof.
  unfold entry_line.
  destruct (is_dir e), (show_modified_time self), (show_size self),
    (is_file e); cbn [andb orb truthy];
    repeat match goal with |- context [truthy ?x] => destruct (truthy x) end;
    cbn [andb orb]; rewrite ?append_assoc, ?append_nil_l; reflexivity.
Qed.

(** Every line is its prefix, its connector, a space, the coloured name
    of its entry, and then the annotations, if any. *)
Lemma render_coloured_name (self : TreeDrawer) (r : row) :
  exists notes,
    render self r =
    row_prefix r +:+ row_connector r +:+ " " +:+
    coloured_name (row_entry r) +:+ notes.
Proof.
  unfold render, entry_line, coloured_name.
  destruct (is_dir (row_entry r)); cbn zeta.
  - destruct (truthy (if show_modified_time self then _ else _)),
      (truthy (if show_size self then _ else _)); cbn [orb];
      eexists; rewrite ?append_assoc; reflexivity.
  - destruct (show_modified_time self), (show_size self && is_file (row_entry r));
      eexists; rewrite ?append_assoc; try reflexivity.
    instantiate (1 := ""). now rewrite append_nil_r.
Qed.

Lemma connector_neq : __FORK_STRING <> __CORNER_STRING.
Proof. discriminate. Qed.

Lemma segment_neq : __WALL_STRING <> __SPACE_STRING.
Proof. discriminate. Qed.

Lemma segment_nonempty (n i : nat) (t : string) : segment_at n i +:+ t <> "".
Proof. unfold segment_at. destruct (Nat.eqb i (n - 1)); discriminate. Qed.

Lemma rows_prefix (self : TreeDrawer) (path : node) :
  forall prefix r, In r (_tree_rows self path prefix) ->
    exists t, row_prefix r = prefix +:+ t.
Proof.
  pattern path. apply node_children_ind. clear path.
  intros path IH prefix r Hin. rewrite _tree_rows_unfold in Hin.
  unfold rows_body in Hin. apply in_flat_map in Hin as [[i e] [Hie Hin]].
  destruct Hin as [<- | Hin].
  - exists "". cbn. now rewrite append_nil_r.
  - destruct (is_dir e); [|contradiction].
    apply enumerate_In, list_elem_of_lookup_2, list_elem_of_In,
      shown_entries_In in Hie as [Hie _].
    apply (IH e Hie) in Hin as [t Ht]. rewrite append_assoc in Ht. eauto.
Qed.

Lemma lines_prefix (self : TreeDrawer) (path : node) (prefix line : string) :
  In line (_tree_structure self path prefix) ->
  String.prefix prefix line = true.
Proof.
  rewrite _tree_structure_rows. intros Hin.
  apply in_map_iff in Hin as [r [<- Hr]].
  apply rows_prefix in Hr as [t Ht]. unfold render.
  rewrite entry_line_split, Ht, append_assoc. apply prefix_append.
Qed.

Lemma level_rows_body (self : TreeDrawer) (path : node) (prefix : string) :
  level_rows prefix (_tree_rows self path prefix) =
  map (fun '(i, entry) =>
         {| row_prefix := prefix;
            row_connector := connector_at (length (shown_entries self path)) i;
            row_entry := entry |})
      (enumerate (shown_entries self path)).
Proof.
  rewrite _tree_rows_unfold. unfold level_rows, rows_body.
  rewrite filter_flat_map, <- flat_map_singleton.
  apply flat_map_ext_In. intros [i e] _. cbn. rewrite String.eqb_refl.
  f_equal. apply filter_none. intros r Hr.
  destruct (is_dir e); [|contradiction].
  apply rows_prefix in Hr as [t Ht]. apply String.eqb_neq.
  rewrite Ht, append_assoc. apply append_neq_self, segment_nonempty.
Qed.

Lemma level_rows_entries (self : TreeDrawer) (path : node) (prefix : string) :
  map row_entry (level_rows prefix (_tree_rows self path prefix)) =
  shown_entries self path.
Proof.
  rewrite level_rows_body, map_map.
  rewrite <- (enumerate_snd (shown_entries self path)) at 2.
  apply map_ext. now intros [i e].
Qed.

Lemma map_seq_const {A : Type} (f : nat -> A) (c : A) (len start : nat) :
  (forall i, (start <= i < start + len)%nat -> f i = c) ->
  map f (seq start len) = repeat c len.
Proof.
  revert start. induction len as [|len IH]; intros start H; cbn; [reflexivity|].
  rewrite H by lia. f_equal. apply IH. intros i Hi. apply H. lia.
Qed.

Lemma connectors_seq (n : nat) :
  (0 < n)%nat ->
  map (connector_at n) (seq 0 n) =
  repeat __FORK_STRING (n - 1) ++ [__CORNER_STRING].
Proof.
  intros Hn. destruct n as [|m]; [lia|].
  rewrite seq_S, map_app. cbn [map Nat.add]. f_equal.
  - replace (S m - 1)%nat with m by lia. apply map_seq_const.
    intros i Hi. unfold connector_at.
    destruct (Nat.eqb_spec i (S m - 1)); [lia | reflexivity].
  - unfold connector_at. now rewrite Nat.sub_succ, Nat.sub_0_r, Nat.eqb_refl.
Qed.

Lemma level_rows_connectors (self : TreeDrawer) (path : node) (prefix : string) :
  map row_connector (level_rows prefix (_tree_rows self path prefix)) =
  map (connector_at (length (shown_entries self path)))
      (seq 0 (length (shown_entries self path))).
Proof.
  rewrite level_rows_body, map_map, <- enumerate_fst, map_map.
  apply map_ext. now intros [i e].
Qed.

(** C1. In the lines that [_tree_structure] emits for the children of a
    directory with at least one shown child, the connectors are, in the
    order of the lines, forks for all children but the last and one corner
    for the last; fork and corner differ, and each child line is the
    prefix, then its connector, then the label of the entry. *)
Theorem corner_connector_last (self : TreeDrawer) (path : node) (prefix : string) :
  shown_entries self path <> [] ->
  let n := length (shown_entries self path) in
  let rows := level_rows prefix (_tree_rows self path prefix) in
  _tree_structure self path prefix =
    map (render self) (_tree_rows self path prefix) /\
  map row_entry rows = shown_entries self path /\
  map row_connector rows =
    repeat __FORK_STRING (n - 1) ++ [__CORNER_STRING] /\
  __FORK_STRING <> __CORNER_STRING /\
  (forall r, In r rows ->
     render self r =
     prefix +:+ row_connector r +:+ entry_line self "" "" (row_entry r)).
Proof.
  intros Hne n rows. repeat split.
  - apply _tree_structure_rows.
  - apply level_rows_entries.
  - unfold rows. rewrite level_rows_connectors. apply connectors_seq.
    subst n. destruct (shown_entries self path); [congruence | cbn; lia].
  - apply connector_neq.
  - intros r Hr. apply List.filter_In in Hr as [_ Hp].
    apply String.eqb_eq in Hp. unfold render.
    now rewrite entry_line_split, Hp.
Qed.

(** C2. The call made for the directory at position [i] of the shown
    children gets the current prefix extended by the space segment when
    [i] is the last position and by the wall segment otherwise, and every
    line of that call starts with the extended prefix. *)
Theorem recursive_prefix (self : TreeDrawer) (path : node) (prefix : string) :
  let n := length (shown_entries self path) in
  let extended (i : nat) :=
    prefix +:+ (if Nat.eqb i (n - 1) then __SPACE_STRING else __WALL_STRING) in
  _tree_structure self path prefix =
    flat_map
      (fun '(i, entry) =>
         entry_line self prefix (connector_at n i) entry ::
         (if is_dir entry
          then _tree_structure self (snd entry) (extended i) else []))
      (enumerate (shown_entries self path)) /\
  (forall i entry line,
     shown_entries self path !! i = Some entry -> is_dir entry = true ->
     In line (_tree_structure self (snd entry) (extended i)) ->
     In line (_tree_structure self path prefix) /\
     String.prefix (extended i) line = true) /\
  __WALL_STRING <> __SPACE_STRING.
Proof.
  intros n extended. split; [|split].
  - rewrite _tree_structure_unfold at 1. apply tree_body_blocks.
  - intros i entry line Hi Hdir Hin. split; [|now apply lines_prefix in Hin].
    rewrite _tree_structure_unfold, tree_body_blocks.
    apply in_flat_map. exists (i, entry). split.
    + now apply enumerate_lookup.
    + right. rewrite Hdir. exact Hin.
  - apply segment_neq.
Qed.

(** ** Order and filtering of the children *)

Lemma lookup_map {A B : Type} (f : A -> B) (l : list A) (i : nat) :
  map f l !! i = option_map f (l !! i).
Proof.
  revert i. induction l as [|x l IH]; intros [|i]; cbn; try reflexivity.
  apply IH.
Qed.

Lemma NoDup_map_filter {A B : Type} (f : A -> B) (p : A -> bool) (l : list A) :
  NoDup (map f l) -> NoDup (map f (List.filter p l)).
Proof.
  induction l as [|x l IH]; cbn; [trivial|].
  rewrite NoDup_cons. intros [Hx Hl]. destruct (p x); cbn; [|auto].
  apply NoDup_cons. split; [|auto].
  rewrite list_elem_of_In in *. intros Hin. apply Hx.
  apply in_map_iff in Hin as [y [Hy Hin]]. apply List.filter_In in Hin as [Hin _].
  apply in_map_iff. eauto.
Qed.

Lemma shown_entries_NoDup (self : TreeDrawer) (path : node) :
  distinct_names path -> NoDup (map name (shown_entries self path)).
Proof.
  intros Hd. rewrite shown_entries_visible.
  apply NoDup_ListNoDup. eapply Permutation_NoDup.
  - apply Permutation_map. symmetry. apply sort_by_perm.
  - now apply NoDup_ListNoDup, NoDup_map_filter.
Qed.

Lemma shown_entries_sorted (self : TreeDrawer) (path : node) :
  StronglySorted entry_le (shown_entries self path).
Proof. rewrite shown_entries_visible. apply sort_by_sorted. Qed.

Lemma dir_not_file (e : Entry) : is_dir e = true -> is_file e = false.
Proof.
  unfold is_dir, is_file, node_is_dir, node_is_file.
  now destruct (follow (snd e)).
Qed.

Lemma _is_ignored_false (self : TreeDrawer) (nm : string) :
  _is_ignored self nm = false <->
  forall pattern, pattern ∈ ignored_patterns self -> fnmatch nm pattern = false.
Proof.
  unfold _is_ignored. split.
  - intros H pattern Hp. destruct (fnmatch nm pattern) eqn:Hm; [|reflexivity].
    rewrite <- H. symmetry. apply existsb_exists. exists pattern.
    split; [|exact Hm]. now apply list_elem_of_In, elem_of_elements.
  - intros H. destruct (existsb _ _) eqn:He; [|reflexivity].
    apply existsb_exists in He as [pattern [Hin Hm]].
    apply list_elem_of_In, elem_of_elements in Hin. rewrite H in Hm; congruence.
Qed.

(** C3, as the code has it.  The lines of [_tree_structure] are its rows
    rendered, each line being prefix, connector, space, coloured name and
    annotations.  Among the children of one directory (whose listing has
    pairwise distinct names) the rows stand in the order of the key
    [(is_file, name)]: every entry that is not a regular file, be it a
    directory or neither of the two, comes before every regular file, and
    the names increase strictly among the entries that are not regular
    files and among the regular files.  So every directory comes before
    every regular file, and two directories, or two regular files, stand
    in strictly increasing order of their names.  (An entry that is
    neither is rendered in the colour of a file and stands among the
    directories.) *)
Theorem directories_first_sorted (self : TreeDrawer) (path : node) (prefix : string) :
  distinct_names path ->
  let shown := map row_entry (level_rows prefix (_tree_rows self path prefix)) in
  _tree_structure self path prefix =
    map (render self) (_tree_rows self path prefix) /\
  (forall r, In r (_tree_rows self path prefix) ->
     exists notes,
       render self r =
       row_prefix r +:+ row_connector r +:+ " " +:+
       coloured_name (row_entry r) +:+ notes) /\
  (forall i j a b,
     (i < j)%nat -> shown !! i = Some a -> shown !! j = Some b ->
     (is_file a = false /\ is_file b = true) \/
     (is_file a = is_file b /\ String.ltb (name a) (name b) = true)) /\
  (forall i j a b,
     shown !! i = Some a -> shown !! j = Some b ->
     is_dir a = true -> is_file b = true -> (i < j)%nat) /\
  (forall i j a b,
     (i < j)%nat -> shown !! i = Some a -> shown !! j = Some b ->
     (is_dir a = true /\ is_dir b = true) \/
     (is_file a = true /\ is_file b = true) ->
     String.ltb (name a) (name b) = true).
Proof.
  intros Hd shown.
  split; [apply _tree_structure_rows|].
  split; [intros r _; apply render_coloured_name|].
  unfold shown. rewrite level_rows_entries.
  pose proof (StronglySorted_lookup _ _ (shown_entries_sorted self path)) as Hs.
  pose proof (shown_entries_NoDup self path Hd) as Hn.
  assert (Hkey : forall i j a b,
            (i < j)%nat -> shown_entries self path !! i = Some a ->
            shown_entries self path !! j = Some b ->
            (is_file a = false /\ is_file b = true) \/
            (is_file a = is_file b /\ String.ltb (name a) (name b) = true)).
  { intros i j a b Hij Ha Hb. specialize (Hs i j a b Hij Ha Hb).
    assert (Hne : name a <> name b).
    { intros Heq. assert (i = j); [|lia].
      apply (NoDup_lookup _ i j (name a) Hn).
      - now rewrite lookup_map, Ha.
      - now rewrite lookup_map, Hb, Heq. }
    unfold entry_le, key_le, sort_key, key_lt in Hs. cbn in Hs.
    destruct (is_file a), (is_file b); try discriminate; auto; right;
      (split; [reflexivity|]);
      (destruct (String.ltb (name a) (name b)) eqn:Hlt; [reflexivity|]);
      exfalso; apply Hne; now apply string_ltb_total. }
  split; [exact Hkey|]. split.
  - intros i j a b Ha Hb Hda Hfb.
    destruct (Nat.lt_trichotomy i j) as [Hlt | [-> | Hgt]]; [exact Hlt | |].
    + rewrite Ha in Hb. injection Hb as ->.
      apply dir_not_file in Hda. congruence.
    + pose proof (dir_not_file a Hda) as Hna.
      destruct (Hkey j i b a Hgt Hb Ha) as [[H1 _] | [H1 _]]; congruence.
  - intros i j a b Hij Ha Hb Hkind.
    destruct (Hkey i j a b Hij Ha Hb) as [[H1 H2] | [_ H]]; [|exact H].
    destruct Hkind as [[_ H3] | [H3 _]];
      [apply dir_not_file in H3|]; congruence.
Qed.

(** C4. The lines of [_tree_structure] are its rows rendered, each line
    being prefix, connector, space, the coloured name of the entry of the
    row and annotations.  For a directory whose listing has pairwise
    distinct names: no rendered child has a name that [fnmatch] matches
    against a pattern of the ignore set, and every listed name that
    matches no pattern and passes the show-files rule (a directory, or
    files are shown) and the show-hidden rule (no leading dot, or hidden
    names are shown) is the name of exactly one rendered child. *)
Theorem ignore_filter_exact (self : TreeDrawer) (path : node) (prefix : string) :
  distinct_names path ->
  let shown := map row_entry (level_rows prefix (_tree_rows self path prefix)) in
  _tree_structure self path prefix =
    map (render self) (_tree_rows self path prefix) /\
  (forall r, In r (_tree_rows self path prefix) ->
     exists notes,
       render self r =
       row_prefix r +:+ row_connector r +:+ " " +:+
       coloured_name (row_entry r) +:+ notes) /\
  (forall e pattern,
     In e shown -> pattern ∈ ignored_patterns self ->
     fnmatch (name e) pattern = false) /\
  (forall e,
     In e (iterdir path) ->
     (forall pattern, pattern ∈ ignored_patterns self ->
                      fnmatch (name e) pattern = false) ->
     show_files self = true \/ is_dir e = true ->
     show_hidden self = true \/ _is_hidden (name e) = false ->
     count_occ string_dec (map name shown) (name e) = 1%nat).
Proof.
  intros Hd shown.
  split; [apply _tree_structure_rows|].
  split; [intros r _; apply render_coloured_name|].
  unfold shown. rewrite level_rows_entries. split.
  - intros e pattern He Hp. apply shown_entries_In in He as [_ Hv].
    unfold visible in Hv. apply andb_true_iff in Hv as [Hv _].
    apply andb_true_iff in Hv as [Hv _]. apply negb_true_iff in Hv.
    now apply (proj1 (_is_ignored_false self (name e)) Hv).
  - intros e He Hpat Hfiles Hhidden.
    apply NoDup_count_occ'.
    + apply NoDup_ListNoDup. now apply shown_entries_NoDup.
    + apply in_map. apply shown_entries_In. split; [exact He|].
      unfold visible. rewrite (proj2 (_is_ignored_false self (name e)) Hpat).
      destruct Hfiles as [-> | ->], Hhidden as [-> | ->];
        cbn; rewrite ?orb_true_r; reflexivity.
Qed.

(** ** Hidden names *)

Lemma draw_returns (self : TreeDrawer) (fs root : node) :
  resolve fs (path self) = Some root -> node_is_dir root = true ->
  draw self fs true None [] =
  (inr (String.concat NL
          (root_line self root ::
           map (render self) (_tree_rows self root ""))), []).
Proof.
  intros Hr Hd. unfold draw. rewrite Hr, Hd. cbn [negb].
  now rewrite _tree_structure_rows.
Qed.

Lemma rows_visible (self : TreeDrawer) (path : node) :
  forall prefix r, In r (_tree_rows self path prefix) ->
    visible self (row_entry r) = true.
Proof.
  pattern path. apply node_children_ind. clear path.
  intros path IH prefix r Hin. rewrite _tree_rows_unfold in Hin.
  unfold rows_body in Hin. apply in_flat_map in Hin as [[i e] [Hie Hin]].
  apply enumerate_In, list_elem_of_lookup_2, list_elem_of_In,
    shown_entries_In in Hie as [Hie Hv].
  destruct Hin as [<- | Hin]; [exact Hv|].
  destruct (is_dir e); [|contradiction]. now apply (IH e Hie) in Hin.
Qed.

(** C5, as the code has it.  [draw] returns the root line followed by the
    lines of the rows of [_tree_structure].  With [show_hidden] off, no
    row, at any depth, is for a name with a leading dot; with
    [show_hidden] on, a listed name with a leading dot that is not ignored
    and passes the show-files rule has a row among the children of its
    directory.  (The root line carries the name of the root whatever it
    is.) *)
Theorem hidden_names_below_root (self : TreeDrawer) (fs root : node) :
  resolve fs (path self) = Some root -> node_is_dir root = true ->
  draw self fs true None [] =
    (inr (String.concat NL
            (root_line self root ::
             map (render self) (_tree_rows self root ""))), []) /\
  (show_hidden self = false ->
   forall r, In r (_tree_rows self root "") ->
             _is_hidden (name (row_entry r)) = false) /\
  (show_hidden self = true ->
   forall path prefix e,
     In e (iterdir path) -> _is_hidden (name e) = true ->
     _is_ignored self (name e) = false ->
     show_files self = true \/ is_dir e = true ->
     In e (map row_entry (level_rows prefix (_tree_rows self path prefix)))).
Proof.
  intros Hr Hd. split; [now apply draw_returns|]. split.
  - intros Hh r Hin. apply rows_visible in Hin. unfold visible in Hin.
    rewrite Hh in Hin. apply andb_true_iff in Hin as [_ Hin].
    now apply negb_true_iff in Hin.
  - intros Hh path prefix e He _ Hi Hf. rewrite level_rows_entries.
    apply shown_entries_In. split; [exact He|]. unfold visible.
    rewrite Hi, Hh. destruct Hf as [-> | ->]; cbn; rewrite ?orb_true_r; reflexivity.
Qed.

(** ** Sizes of directories *)

Lemma fold_left_add (l : list Z) (a : Z) :
  fold_left Z.add l a = a + fold_left Z.add l 0.
Proof.
  revert a. induction l as [|x l IH]; intros a; cbn; [lia|].
  rewrite (IH (a + x)), (IH (0 + x)). lia.
Qed.


Lemma beneath_follow (n : node) : beneath (follow n) = beneath n.
Proof. clear. induction n; cbn; auto. Qed.

Lemma counted_bytes_file (e : Entry) :
  is_file e = true -> counted_bytes (snd e) = 0.
Proof.
  clear. unfold is_file, node_is_file.
  destruct (snd e); cbn; try reflexivity. discriminate.
Qed.

Lemma rglob_below_total (n : node) :
  fold_left Z.add (map st_size (List.filter is_file (rglob_below n))) 0 =
  counted_bytes n.
Proof.
  clear. pattern n. apply node_children_ind. clear n.
  intros [size t | t l | t | target] IH; try reflexivity.
  cbn [rglob_below counted_bytes]. change (iterdir (Dir t l)) with l in IH.
  induction l as [|e l IHl]; [reflexivity|].
  cbn [flat_map fold_right]. rewrite List.filter_app, map_app, fold_left_app.
  rewrite (fold_left_add _ (fold_left _ _ _)).
  f_equal; [|apply IHl; intros e' He'; apply IH; now right].
  specialize (IH e (or_introl eq_refl)). cbn [List.filter].
  destruct (is_file e) eqn:Hf; cbn [map fold_left].
  - etransitivity; [apply fold_left_add|].
    etransitivity; [apply (f_equal (Z.add _)), IH|].
    rewrite (counted_bytes_file e Hf). lia.
  - exact IH.
Qed.

Lemma rglob_total (path : node) :
  fold_left Z.add (map st_size (List.filter is_file (rglob path))) 0 =
  counted_bytes (follow path).
Proof. apply rglob_below_total. Qed.


Lemma beneath_child (t : Z) (l : list Entry) (e x : Entry) :
  In e l -> In x (e :: beneath (snd e)) -> In x (beneath (Dir t l)).
Proof.
  clear. intros He Hx. cbn [beneath]. apply in_flat_map. eauto.
Qed.



(** ** A root that is not a directory *)

(** C8. When the root path is not an existing directory, [draw] raises
    [ValueError] and leaves the trace of effects as it found it: nothing
    is returned, printed or written, whatever [as_string] and [save_path]
    are. *)
Theorem draw_invalid_root (self : TreeDrawer) (fs : node) (as_string : bool)
    (save_path : option Path) (tr : list effect) :
  path_is_dir fs (path self) = false ->
  draw self fs as_string save_path tr =
  (inl (ValueError "The specified path is not a directory."), tr).
Proof.
  unfold path_is_dir, draw. intros H.
  destruct (resolve fs (path self)) as [root|]; [|reflexivity].
  now rewrite H.
Qed.

(** ** The ignore list as a set *)

(** C10. Two renderers built from ignore lists with the same members (in
    any order, with any repetitions) and otherwise equal arguments are
    the same renderer, so they ignore the same names and [_tree_structure]
    and [draw] give the same result on every file system. *)
Theorem ignored_list_as_set (root_path : Path) (ignored1 ignored2 : list string)
    (files mtime size hidden : bool) :
  (forall pattern, In pattern ignored1 <-> In pattern ignored2) ->
  let self1 := __init__ root_path ignored1 files mtime size hidden in
  let self2 := __init__ root_path ignored2 files mtime size hidden in
  self1 = self2 /\
  (forall nm, _is_ignored self1 nm = _is_ignored self2 nm) /\
  (forall path prefix,
     _tree_structure self1 path prefix = _tree_structure self2 path prefix) /\
  (forall fs as_string save_path tr,
     draw self1 fs as_string save_path tr = draw self2 fs as_string save_path tr).
Proof.
  intros Hsame self1 self2.
  assert (Heq : self1 = self2).
  { unfold self1, self2, __init__. f_equal. apply set_eq. intros pattern.
    rewrite !elem_of_list_to_set, !list_elem_of_In. apply Hsame. }
  rewrite Heq. auto.
Qed.

(** ** Rounding and the size formatter *)

Lemma round_half_even_near (a b : Z) :
  0 < b -> 2 * Z.abs (a - b * round_half_even a b) <= b.
Proof.
  intros Hb. unfold round_half_even.
  pose proof (Z.div_mod a b ltac:(lia)) as Hdm.
  pose proof (Z.mod_pos_bound a b Hb) as Hm.
  destruct (Z.compare_spec (2 * (a mod b)) b) as [He | Hl | Hg];
    [destruct (Z.even (a / b))| |]; lia.
Qed.

Lemma round_half_even_scale (a b c : Z) :
  0 < b -> 0 < c -> round_half_even (a * c) (b * c) = round_half_even a b.
Proof.
  intros Hb Hc. unfold round_half_even.
  rewrite Z.div_mul_cancel_r, Z.mul_mod_distr_r by lia.
  assert (Hcmp : (2 * (a mod b * c) ?= b * c) = (2 * (a mod b) ?= b)).
  { destruct (Z.compare_spec (2 * (a mod b)) b);
      destruct (Z.compare_spec (2 * (a mod b * c)) (b * c)); try reflexivity; nia. }
  now rewrite Hcmp.
Qed.

Lemma round_half_even_exact (x b : Z) : 0 < b -> round_half_even (x * b) b = x.
Proof.
  intros Hb. unfold round_half_even.
  rewrite Z.div_mul, Z.mod_mul by lia.
  now destruct (Z.compare_spec (2 * 0) b); try lia.
Qed.

(** Below [2^53], dividing by a power of two is exact. *)
Lemma true_div_pow2 (a k : Z) :
  0 < a < 2 ^ 53 -> 0 <= k ->
  exists s, 0 <= s /\ true_div a (2 ^ k) = {| mant := a * 2 ^ s; expo := - (s + k) |}.
Proof.
  intros [Ha Hlt] Hk. exists (52 - Z.log2 a).
  pose proof (Z.log2_spec a Ha) as [Hlo Hhi].
  pose proof (Z.log2_nonneg a) as Hnn.
  assert (HL : Z.log2 a < 53) by (apply Z.log2_lt_pow2; lia).
  split; [lia|]. unfold true_div.
  destruct (Z.eqb_spec a 0) as [|_]; [lia|].
  rewrite Z.abs_eq, Z.log2_pow2, Z.sgn_pos by lia.
  set (L := Z.log2 a) in *.
  assert (Hfloor : floor_scaled a (2 ^ k) (L - k - 53) = a * 2 ^ (53 - L)).
  { unfold floor_scaled. destruct (Z.leb_spec 0 (L - k - 53)); [lia|].
    replace (- (L - k - 53)) with ((53 - L) + k) by lia.
    rewrite Z.pow_add_r, Z.mul_assoc by lia. apply Z.div_mul.
    apply Z.pow_nonzero; lia. }
  rewrite Hfloor.
  assert (Hbig : 2 ^ 53 <= a * 2 ^ (53 - L)).
  { replace 53 with (L + (53 - L)) at 1 by lia. rewrite Z.pow_add_r by lia.
    apply Z.mul_le_mono_nonneg_r; [apply Z.pow_nonneg; lia | exact Hlo]. }
  destruct (Z.ltb_spec (a * 2 ^ (53 - L)) (2 ^ 53)) as [|_]; [lia|].
  replace (L - k - 53 + 1) with (- (52 - L + k)) by lia.
  f_equal. rewrite Z.mul_1_l. unfold round_scaled.
  assert (Hpk : 0 < 2 ^ k) by (apply Z.pow_pos_nonneg; lia).
  destruct (Z.leb_spec 0 (- (52 - L + k))) as [Hge | Hneg].
  - assert (L = 52) by lia. assert (k = 0) by lia. subst k.
    replace (- (52 - L + 0)) with 0 by lia. replace (52 - L) with 0 by lia.
    change (2 ^ 0) with 1. rewrite ?Z.mul_1_r.
    transitivity (round_half_even (a * 1) 1);
      [now rewrite Z.mul_1_r | now apply round_half_even_exact].
  - rewrite Z.opp_involutive, Z.pow_add_r, Z.mul_assoc by lia.
    now apply round_half_even_exact.
Qed.

Lemma format_1f_pow2 (a k : Z) :
  0 < a < 2 ^ 53 -> 0 <= k ->
  format_1f (true_div a (2 ^ k)) =
  str_of_int (round_half_even (10 * a) (2 ^ k) / 10) +:+ "." +:+
  str_of_int (round_half_even (10 * a) (2 ^ k) mod 10).
Proof.
  intros Ha Hk. destruct (true_div_pow2 a k Ha Hk) as [s [Hs ->]].
  unfold format_1f. cbn [mant expo].
  assert (Hps : 0 < 2 ^ s) by (apply Z.pow_pos_nonneg; lia).
  assert (Hpk : 0 < 2 ^ k) by (apply Z.pow_pos_nonneg; lia).
  destruct (Z.ltb_spec (a * 2 ^ s) 0) as [Hneg | _]; [nia|].
  rewrite Z.abs_eq by nia. rewrite append_nil_l.
  unfold round_scaled. rewrite Z.opp_involutive.
  destruct (Z.leb_spec 0 (s + k)) as [_ | Hneg]; [|lia].
  rewrite Z.mul_1_l, Z.pow_add_r by lia.
  replace (10 * (a * 2 ^ s)) with (10 * a * 2 ^ s) by ring.
  rewrite (Z.mul_comm (2 ^ s) (2 ^ k)).
  now rewrite round_half_even_scale.
Qed.

(** C7. [_get_size] has three tiers: below 1024 the integer and the unit
    B; from 1024 to below 1048576 the quotient by 1024 with one decimal
    and the unit KB; from 1048576 on the quotient by 1048576 with one
    decimal and the unit MB.  The decimal shown is [q / 10] and the digit
    [q mod 10] for the number of tenths [q] nearest to the quotient (for
    sizes below [2^53], where the division is exact).  The four values of
    the specification are as stated. *)
Theorem _get_size_tiers (n : Z) :
  (n < 1024 -> _get_size n = "(" +:+ str_of_int n +:+ " B)") /\
  (1024 <= n < 1048576 ->
   _get_size n = "(" +:+ format_1f (true_div n 1024) +:+ " KB)" /\
   exists q,
     2 * Z.abs (10 * n - 1024 * q) <= 1024 /\
     _get_size n =
     "(" +:+ str_of_int (q / 10) +:+ "." +:+ str_of_int (q mod 10) +:+ " KB)") /\
  (1048576 <= n ->
   _get_size n = "(" +:+ format_1f (true_div n 1048576) +:+ " MB)" /\
   (n < 2 ^ 53 ->
    exists q,
      2 * Z.abs (10 * n - 1048576 * q) <= 1048576 /\
      _get_size n =
      "(" +:+ str_of_int (q / 10) +:+ "." +:+ str_of_int (q mod 10) +:+ " MB)")) /\
  _get_size 0 = "(0 B)" /\
  _get_size 1023 = "(1023 B)" /\
  _get_size 1024 = "(1.0 KB)" /\
  _get_size 1048576 = "(1.0 MB)".
Proof.
  split; [|split; [|split; [|repeat split; reflexivity]]].
  - intros Hn. unfold _get_size.
    destruct (Z.ltb_spec n 1024); [reflexivity | lia].
  - intros [Hlo Hhi].
    assert (Hk : _get_size n = "(" +:+ format_1f (true_div n 1024) +:+ " KB)").
    { unfold _get_size. destruct (Z.ltb_spec n 1024); [lia|].
      destruct (Z.ltb_spec n (1024 * 1024)); [reflexivity | lia]. }
    split; [exact Hk|].
    exists (round_half_even (10 * n) 1024). split.
    + apply round_half_even_near. lia.
    + rewrite Hk. change 1024 with (2 ^ 10).
      rewrite format_1f_pow2 by lia. now rewrite !append_assoc.
  - intros Hlo.
    assert (Hm : _get_size n = "(" +:+ format_1f (true_div n 1048576) +:+ " MB)").
    { unfold _get_size. destruct (Z.ltb_spec n 1024); [lia|].
      destruct (Z.ltb_spec n (1024 * 1024)); [lia | reflexivity]. }
    split; [exact Hm|]. intros Hhi.
    exists (round_half_even (10 * n) 1048576). split.
    + apply round_half_even_near. lia.
    + rewrite Hm. change 1048576 with (2 ^ 20).
      rewrite format_1f_pow2 by lia. now rewrite !append_assoc.
Qed.

(** ** Colour markers in a text *)

Lemma marker_blue (s : string) :
  Fore_BLUE +:+ s = String ESC (String "[" (String "3" (String "4" (String "m" s)))).
Proof. reflexivity. Qed.

Lemma marker_green (s : string) :
  Fore_GREEN +:+ s = String ESC (String "[" (String "3" (String "2" (String "m" s)))).
Proof. reflexivity. Qed.

Lemma marker_white (s : string) :
  Fore_WHITE +:+ s = String ESC (String "[" (String "3" (String "7" (String "m" s)))).
Proof. reflexivity. Qed.

Lemma prefix_cons (a b : ascii) (s1 s2 : string) :
  String.prefix (String a s1) (String b s2) =
  if ascii_dec a b then String.prefix s1 s2 else false.
Proof. reflexivity. Qed.

Lemma prefix_marker_char (m : string) (c : ascii) (s : string) :
  is_marker m -> c <> ESC -> String.prefix m (String c s) = false.
Proof.
  intros [-> | [-> | ->]] Hc;
    unfold Fore_BLUE, Fore_GREEN, Fore_WHITE; rewrite prefix_cons;
    (destruct (ascii_dec ESC c); [congruence | reflexivity]).
Qed.

Lemma replace_char (m : string) (c : ascii) (s : string) :
  is_marker m -> c <> ESC ->
  replace m "" (String c s) = String c (replace m "" s).
Proof.
  intros Hm Hc. unfold replace. cbn [replace_from].
  now rewrite prefix_marker_char.
Qed.

Lemma replace_same (m s : string) :
  is_marker m -> replace m "" (m +:+ s) = replace m "" s.
Proof.
  intros Hm. unfold replace. pose proof (prefix_append m s) as Hp.
  destruct Hm as [-> | [-> | ->]];
    rewrite ?marker_blue, ?marker_green, ?marker_white in *;
    cbn [replace_from]; rewrite Hp; reflexivity.
Qed.

Lemma replace_other (m m' s : string) :
  is_marker m -> is_marker m' -> m <> m' ->
  replace m "" (m' +:+ s) = m' +:+ replace m "" s.
Proof.
  intros [-> | [-> | ->]] [-> | [-> | ->]] Hne; try congruence;
    rewrite ?marker_blue, ?marker_green, ?marker_white; reflexivity.
Qed.

Lemma strip_char (c : ascii) (s : string) :
  c <> ESC -> strip_markers (String c s) = String c (strip_markers s).
Proof.
  intros Hc. unfold strip_markers. cbn [strip_from]. unfold starts_marker.
  rewrite !prefix_marker_char by (unfold is_marker; auto). reflexivity.
Qed.

Lemma strip_mark (m s : string) :
  is_marker m -> strip_markers (m +:+ s) = strip_markers s.
Proof.
  intros Hm. unfold strip_markers.
  assert (Hp : starts_marker (m +:+ s) = true).
  { unfold starts_marker.
    destruct Hm as [-> | [-> | ->]]; rewrite prefix_append;
      now rewrite ?orb_true_r. }
  destruct Hm as [-> | [-> | ->]];
    rewrite ?marker_blue, ?marker_green, ?marker_white in *;
    cbn [strip_from]; rewrite Hp; reflexivity.
Qed.

(** On a text whose ESC characters all begin a marker, removing the three
    markers one after the other removes exactly the markers. *)
Lemma replace_thrice_strips (s : string) :
  styled s ->
  replace Fore_WHITE "" (replace Fore_GREEN "" (replace Fore_BLUE "" s)) =
  strip_markers s.
Proof.
  assert (Hb : is_marker Fore_BLUE) by (unfold is_marker; auto).
  assert (Hg : is_marker Fore_GREEN) by (unfold is_marker; auto).
  assert (Hw : is_marker Fore_WHITE) by (unfold is_marker; auto).
  induction 1 as [| c s Hc Hs IH | m s Hm Hs IH].
  - reflexivity.
  - now rewrite !replace_char, strip_char, IH.
  - rewrite strip_mark by assumption. destruct Hm as [-> | [-> | ->]].
    + now rewrite replace_same.
    + rewrite (replace_other Fore_BLUE Fore_GREEN) by (auto; discriminate).
      now rewrite replace_same.
    + rewrite (replace_other Fore_BLUE Fore_WHITE) by (auto; discriminate).
      rewrite (replace_other Fore_GREEN Fore_WHITE) by (auto; discriminate).
      now rewrite replace_same.
Qed.

Lemma styled_app (a b : string) : styled a -> styled b -> styled (a +:+ b).
Proof.
  induction 1 as [| c s Hc Hs IH | m s Hm Hs IH]; intros Hb.
  - exact Hb.
  - rewrite append_cons. constructor; auto.
  - rewrite append_assoc. constructor; auto.
Qed.

Lemma esc_free_styled (s : string) : esc_free s = true -> styled s.
Proof.
  induction s as [|c s IH]; cbn; [constructor|].
  intros [Hc Hs]%andb_true_iff. constructor; [|auto].
  apply negb_true_iff, Ascii.eqb_neq in Hc. exact Hc.
Qed.

Lemma styled_marker (m : string) : is_marker m -> styled m.
Proof.
  intros Hm. rewrite <- (append_nil_r m). constructor; [exact Hm | constructor].
Qed.

Lemma esc_free_append (a b : string) :
  esc_free (a +:+ b) = esc_free a && esc_free b.
Proof.
  induction a as [|c a IH]; [reflexivity|]. rewrite append_cons. cbn.
  now rewrite IH, andb_assoc.
Qed.

Lemma esc_free_uint (d : Decimal.uint) :
  esc_free (NilEmpty.string_of_uint d) = true.
Proof. induction d; cbn; auto. Qed.

Lemma esc_free_str_of_int (n : Z) : esc_free (str_of_int n) = true.
Proof.
  unfold str_of_int, NilZero.string_of_int, NilZero.string_of_uint.
  destruct (Z.to_int n) as [d | d]; destruct d; cbn;
    try reflexivity; apply esc_free_uint.
Qed.

Lemma esc_free_format_1f (x : float) : esc_free (format_1f x) = true.
Proof.
  unfold format_1f. rewrite !esc_free_append, !esc_free_str_of_int.
  now destruct (mant x <? 0).
Qed.

Lemma esc_free_get_size (n : Z) : esc_free (_get_size n) = true.
Proof.
  unfold _get_size. repeat destruct (_ <? _);
    now rewrite !esc_free_append, ?esc_free_str_of_int, ?esc_free_format_1f.
Qed.

(** ** The text that [draw] builds and what it saves *)

Ltac styled_parts :=
  repeat first
    [ assumption
    | apply styled_marker; unfold is_marker; tauto
    | apply esc_free_styled;
      first [ reflexivity | assumption | apply esc_free_get_size ]
    | apply styled_app ].

Section Styled.

Hypothesis strftime_plain : forall t, esc_free (strftime t) = true.

Lemma styled_entry_line (self : TreeDrawer) (prefix connector : string) (e : Entry) :
  styled prefix -> styled connector -> esc_free (name e) = true ->
  styled (entry_line self prefix connector e).
Proof using strftime_plain.
  clear fnmatch.
  intros Hp Hc Hn. pose proof (strftime_plain (st_mtime e)) as Ht.
  unfold entry_line, modified_note, size_note, _get_directory_size.
  destruct (is_dir e), (show_modified_time self), (show_size self),
    (is_file e); cbn [andb orb truthy];
    repeat match goal with |- context [truthy ?x] => destruct (truthy x) end;
    cbn [andb orb]; styled_parts.
Qed.

Lemma styled_root_line (self : TreeDrawer) (root : node) :
  esc_free (path_name (path self)) = true -> styled (root_line self root).
Proof using strftime_plain.
  intros Hn.
  pose proof (strftime_plain (st_mtime (path_name (path self), root))) as Ht.
  unfold root_line, modified_note, size_note, _get_directory_size.
  destruct (show_modified_time self), (show_size self); cbn [andb orb truthy];
    repeat match goal with |- context [truthy ?x] => destruct (truthy x) end;
    cbn [andb orb]; styled_parts.
Qed.

Lemma styled_row_parts (self : TreeDrawer) (path : node) :
  forall prefix r, styled prefix -> In r (_tree_rows self path prefix) ->
    styled (row_prefix r) /\ styled (row_connector r).
Proof using Type.
  clear strftime_plain strftime.
  pattern path. apply node_children_ind. clear path.
  intros path IH prefix r Hp Hin. rewrite _tree_rows_unfold in Hin.
  unfold rows_body in Hin. apply in_flat_map in Hin as [[i e] [Hie Hin]].
  apply enumerate_In, list_elem_of_lookup_2, list_elem_of_In,
    shown_entries_In in Hie as [Hie _].
  destruct Hin as [<- | Hin].
  - cbn. split; [exact Hp|].
    unfold connector_at, __CORNER_STRING, __FORK_STRING.
    destruct (Nat.eqb i _); styled_parts.
  - destruct (is_dir e); [|contradiction].
    apply (IH e Hie) in Hin; [exact Hin|].
    unfold segment_at, __SPACE_STRING, __WALL_STRING.
    destruct (Nat.eqb i _); styled_parts.
Qed.

Lemma styled_concat (lines : list string) :
  Forall styled lines -> styled (String.concat NL lines).
Proof.
  induction 1 as [|x l Hx Hl IH]; [constructor|].
  destruct l as [|y l]; [exact Hx|].
  change (String.concat NL (x :: y :: l))
    with (x +:+ NL +:+ String.concat NL (y :: l)).
  unfold NL at 1. styled_parts.
Qed.

Lemma styled_output (self : TreeDrawer) (root : node) :
  esc_free (path_name (path self)) = true ->
  (forall r, In r (_tree_rows self root "") ->
             esc_free (name (row_entry r)) = true) ->
  styled (String.concat NL (root_line self root :: _tree_structure self root "")).
Proof using strftime_plain.
  intros Hn Hp. apply styled_concat. constructor.
  - now apply styled_root_line.
  - rewrite _tree_structure_rows. apply List.Forall_forall. intros line Hin.
    apply in_map_iff in Hin as [r [<- Hr]].
    destruct (styled_row_parts self root "" r styled_nil Hr) as [H1 H2].
    apply styled_entry_line; auto.
Qed.

End Styled.

(** C9, as the code has it.  A call of [draw] with a save destination
    that succeeds writes to [tree_structure.txt] in that destination the
    styled text after removing every blue marker, then every green
    marker, then every white marker, and then reports the file.  When
    neither the name of the root, nor the name of a rendered entry, nor a
    rendered time stamp contains the ESC character, what is written is
    the styled text with every colour marker removed and nothing else
    changed. *)
Theorem export_strips_markers (self : TreeDrawer) (fs : node) (as_string : bool)
    (save_path : Path) (tr tr' : list effect) (text : string) :
  draw self fs as_string (Some save_path) tr = (inr text, tr') ->
  exists root,
    let output :=
      String.concat NL (root_line self root :: _tree_structure self root "") in
    let file := path_join save_path "tree_structure.txt" in
    let content :=
      replace Fore_WHITE ""
        (replace Fore_GREEN "" (replace Fore_BLUE "" output)) in
    resolve fs (path self) = Some root /\
    node_is_dir root = true /\
    text = (if as_string then output else "") /\
    tr' = tr ++ [WriteFile file content;
                 Print ("Tree structure saved to " +:+ path_str file)] ++
          (if as_string then [] else [Print output]) /\
    (esc_free (path_name (path self)) = true ->
     (forall r, In r (_tree_rows self root "") ->
                esc_free (name (row_entry r)) = true) ->
     (forall t, esc_free (strftime t) = true) ->
     content = strip_markers output).
Proof.
  unfold draw. intros Hdraw.
  destruct (resolve fs (path self)) as [root|] eqn:Hr; [|discriminate].
  destruct (node_is_dir root) eqn:Hd; cbn [negb] in Hdraw; [|discriminate].
  exists root. cbn zeta. unfold bind, write_text, emit, ret in Hdraw.
  destruct (can_open_w fs (path_join save_path "tree_structure.txt"));
    [|discriminate].
  split; [reflexivity|]. split; [exact Hd|]. split; [|split].
  - destruct as_string; now injection Hdraw as <- _.
  - destruct as_string; injection Hdraw as _ <-; rewrite <- ?app_assoc;
      reflexivity.
  - intros Hn Hp Ht. apply replace_thrice_strips. now apply styled_output.
Qed.

(** ** Further properties of the walk *)

Lemma Permutation_filter_bool {A : Type} (p : A -> bool) (l1 l2 : list A) :
  Permutation l1 l2 -> Permutation (List.filter p l1) (List.filter p l2).
Proof.
  induction 1 as [| x l1 l2 H IH | x y l | l1 l2 l3 H1 IH1 H2 IH2]; cbn.
  - constructor.
  - destruct (p x); [now constructor | exact IH].
  - destruct (p x), (p y); try reflexivity. apply perm_swap.
  - now transitivity (List.filter p l2).
Qed.

Lemma rows_beneath (self : TreeDrawer) (path : node) :
  forall prefix r, In r (_tree_rows self path prefix) ->
    In (row_entry r) (beneath path).
Proof.
  pattern path. apply node_children_ind. clear path.
  intros path IH prefix r Hin. rewrite _tree_rows_unfold in Hin.
  unfold rows_body in Hin. apply in_flat_map in Hin as [[i e] [Hie Hin]].
  apply enumerate_In, list_elem_of_lookup_2, list_elem_of_In,
    shown_entries_In in Hie as [Hie _].
  rewrite <- beneath_follow. pose proof Hie as Hl. unfold iterdir in Hl.
  destruct (follow path) as [| t l | |]; try contradiction.
  apply (beneath_child t l e _ Hl).
  destruct Hin as [<- | Hin]; [now left|].
  destruct (is_dir e); [|contradiction]. right.
  exact (IH e Hie _ _ Hin).
Qed.

(** X1. The lines of [_tree_structure] are its rows rendered, each line
    being prefix, connector, space, the coloured name of the entry of the
    row and annotations.  The children rendered for a directory are, up to
    their order, the listed entries that pass the three tests of lines 122
    to 128, each as often as it is listed; and every row, at any depth, is
    for a path beneath the directory. *)
Theorem rendered_children_are_the_filtered_listing
    (self : TreeDrawer) (path : node) (prefix : string) :
  _tree_structure self path prefix =
    map (render self) (_tree_rows self path prefix) /\
  (forall r, In r (_tree_rows self path prefix) ->
     exists notes,
       render self r =
       row_prefix r +:+ row_connector r +:+ " " +:+
       coloured_name (row_entry r) +:+ notes) /\
  Permutation
    (map row_entry (level_rows prefix (_tree_rows self path prefix)))
    (List.filter
       (fun e =>
          negb (_is_ignored self (name e)) &&
          (show_files self || is_dir e) &&
          (show_hidden self || negb (_is_hidden (name e))))
       (iterdir path)) /\
  (forall r, In r (_tree_rows self path prefix) ->
             In (row_entry r) (beneath path)).
Proof.
  split; [apply _tree_structure_rows|].
  split; [intros r _; apply render_coloured_name|].
  split.
  - rewrite level_rows_entries, shown_entries_visible. apply sort_by_perm.
  - apply rows_beneath.
Qed.

(** X2. With [show_files] off, every line of [_tree_structure], at any
    depth, is the line of a directory. *)
Theorem directories_only (self : TreeDrawer) (path : node) (prefix : string) :
  show_files self = false ->
  _tree_structure self path prefix =
    map (render self) (_tree_rows self path prefix) /\
  (forall r, In r (_tree_rows self path prefix) -> is_dir (row_entry r) = true).
Proof.
  intros Hf. split; [apply _tree_structure_rows|].
  intros r Hin. apply rows_visible in Hin. unfold visible in Hin.
  rewrite Hf in Hin. apply andb_true_iff in Hin as [Hin _].
  apply andb_true_iff in Hin as [_ Hin]. exact Hin.
Qed.

(** X3. [_tree_structure] returns no line exactly when no listed entry
    passes the filters; then [draw] returns the root line alone. *)
Theorem no_lines_iff_nothing_shown (self : TreeDrawer) (dir : node) (prefix : string) :
  (_tree_structure self dir prefix = [] <-> shown_entries self dir = []) /\
  (shown_entries self dir = [] <->
   forall e, In e (iterdir dir) ->
     _is_ignored self (name e) = true \/
     (show_files self = false /\ is_dir e = false) \/
     (show_hidden self = false /\ _is_hidden (name e) = true)) /\
  (forall fs, resolve fs (path self) = Some dir ->
     node_is_dir dir = true -> shown_entries self dir = [] ->
     draw self fs true None [] = (inr (root_line self dir), [])).
Proof.
  assert (Hiff : _tree_structure self dir prefix = [] <->
                 shown_entries self dir = []).
  { rewrite _tree_structure_unfold, tree_body_blocks. split.
    - destruct (shown_entries self dir) as [|e l]; [reflexivity|discriminate].
    - intros ->. reflexivity. }
  split; [exact Hiff|]. split.
  - split.
    + intros Hnil e He.
      destruct (visible self e) eqn:Hv.
      * assert (Hin : In e (shown_entries self dir))
          by (apply shown_entries_In; auto).
        rewrite Hnil in Hin. contradiction.
      * unfold visible in Hv.
        destruct (_is_ignored self (name e)); [now left|right].
        destruct (show_files self), (is_dir e), (show_hidden self),
          (_is_hidden (name e)); cbn in Hv; try discriminate; auto.
    + intros Hall. destruct (shown_entries self dir) as [|e l] eqn:Hs;
        [reflexivity|].
      assert (Hin : In e (shown_entries self dir)) by (rewrite Hs; now left).
      apply shown_entries_In in Hin as [Hin Hv]. unfold visible in Hv.
      destruct (Hall e Hin) as [Hi | [[Hf Hd] | [Hh Hd]]].
      * rewrite Hi in Hv. discriminate.
      * rewrite Hf, Hd, andb_false_r in Hv. discriminate.
      * rewrite Hh, Hd, andb_false_r in Hv. discriminate.
  - intros fs Hr Hd Hnil. unfold draw. rewrite Hr, Hd. cbn [negb].
    assert (Hl : _tree_structure self dir "" = []).
    { rewrite _tree_structure_unfold, tree_body_blocks, Hnil. reflexivity. }
    rewrite Hl. reflexivity.
Qed.

Lemma same_name_same_entry (l : list Entry) (x y : Entry) :
  NoDup (map name l) -> In x l -> In y l -> name x = name y -> x = y.
Proof.
  clear fnmatch strftime.
  intros Hn Hx Hy Heq.
  apply list_elem_of_In, list_elem_of_lookup in Hx as [i Hi].
  apply list_elem_of_In, list_elem_of_lookup in Hy as [j Hj].
  assert (i = j).
  { apply (NoDup_lookup _ i j (name x) Hn).
    - now rewrite lookup_map, Hi.
    - now rewrite lookup_map, Hj, Heq. }
  subst j. congruence.
Qed.

Lemma filter_lookup_lt {A : Type} (f : A -> bool) (l : list A) :
  forall p q a b,
    (p < q)%nat -> l !! p = Some a -> l !! q = Some b ->
    f a = true -> f b = true ->
    exists i j, (i < j)%nat /\
      List.filter f l !! i = Some a /\ List.filter f l !! j = Some b.
Proof.
  clear fnmatch strftime.
  induction l as [|x l IH]; intros p q a b Hpq Ha Hb Hfa Hfb;
    [destruct p; discriminate|].
  destruct q as [|q]; [lia|]. cbn [List.filter].
  destruct p as [|p].
  - injection Ha as ->. rewrite Hfa.
    assert (Hin : In b (List.filter f l)).
    { apply List.filter_In. split; [|exact Hfb].
      apply list_elem_of_In. eapply list_elem_of_lookup_2. exact Hb. }
    apply list_elem_of_In, list_elem_of_lookup in Hin as [j Hj].
    exists 0%nat, (S j). split; [lia|]. split; [reflexivity | exact Hj].
  - destruct (IH p q a b ltac:(lia) Ha Hb Hfa Hfb) as (i & j & Hij & Hi & Hj).
    destruct (f x).
    + exists (S i), (S j). split; [lia|]. split; assumption.
    + exists i, j. split; [exact Hij|]. split; assumption.
Qed.

(** X4. The lines of [_tree_structure] are its rows rendered, each line
    being prefix, connector, space, the coloured name of the entry of the
    row and annotations.  Of two lines of the output that are for children
    of the directory itself (their rows carry the prefix of the call), the
    earlier one is for an entry that is not a regular file while the
    later one is for a regular file, or both are on the same side and the
    name of the earlier one is smaller: the order of the output is the
    order of the keys [(is_file, name)]. *)
Theorem children_in_key_order (self : TreeDrawer) (path : node) (prefix : string) :
  distinct_names path ->
  let rows := _tree_rows self path prefix in
  _tree_structure self path prefix = map (render self) rows /\
  (forall r, In r rows ->
     exists notes,
       render self r =
       row_prefix r +:+ row_connector r +:+ " " +:+
       coloured_name (row_entry r) +:+ notes) /\
  (forall p q ra rb,
     (p < q)%nat -> rows !! p = Some ra -> rows !! q = Some rb ->
     row_prefix ra = prefix -> row_prefix rb = prefix ->
     (is_file (row_entry ra) = false /\ is_file (row_entry rb) = true) \/
     (is_file (row_entry ra) = is_file (row_entry rb) /\
      String.ltb (name (row_entry ra)) (name (row_entry rb)) = true)).
Proof.
  intros Hd rows.
  split; [apply _tree_structure_rows|].
  split; [intros r _; apply render_coloured_name|].
  intros p q ra rb Hpq Hp Hq Hpa Hpb.
  destruct (filter_lookup_lt (fun r => String.eqb (row_prefix r) prefix) rows
              p q ra rb Hpq Hp Hq) as (i & j & Hij & Hi & Hj);
    [now apply String.eqb_eq | now apply String.eqb_eq |].
  fold (level_rows prefix rows) in Hi, Hj.
  assert (Ha : shown_entries self path !! i = Some (row_entry ra)).
  { rewrite <- (level_rows_entries self path prefix), lookup_map.
    unfold rows in Hi. now rewrite Hi. }
  assert (Hb : shown_entries self path !! j = Some (row_entry rb)).
  { rewrite <- (level_rows_entries self path prefix), lookup_map.
    unfold rows in Hj. now rewrite Hj. }
  pose proof (StronglySorted_lookup _ _ (shown_entries_sorted self path)
                i j _ _ Hij Ha Hb) as Hs.
  pose proof (shown_entries_NoDup self path Hd) as Hn.
  assert (Hne : name (row_entry ra) <> name (row_entry rb)).
  { intros Heq. assert (i = j); [|lia].
    apply (NoDup_lookup _ i j (name (row_entry ra)) Hn).
    - now rewrite lookup_map, Ha.
    - now rewrite lookup_map, Hb, Heq. }
  unfold entry_le, key_le, sort_key, key_lt in Hs. cbn in Hs.
  destruct (is_file (row_entry ra)), (is_file (row_entry rb));
    try discriminate; auto; right;
    (split; [reflexivity|]);
    (destruct (String.ltb (name (row_entry ra)) (name (row_entry rb))) eqn:Hlt;
       [reflexivity|]);
    exfalso; apply Hne; now apply string_ltb_total.
Qed.

Lemma shown_entries_listing_order (self : TreeDrawer) (path1 path2 : node) :
  distinct_names path1 ->
  Permutation (iterdir path1) (iterdir path2) ->
  shown_entries self path1 = shown_entries self path2.
Proof.
  intros Hd Hp.
  apply (StronglySorted_unique_strong entry_le);
    [| apply shown_entries_sorted | apply shown_entries_sorted |].
  - intros x y Hx Hy Hxy Hyx.
    apply list_elem_of_In, shown_entries_In in Hx as [Hx _].
    apply list_elem_of_In, shown_entries_In in Hy as [Hy _].
    apply (Permutation_in _ (Permutation_sym Hp)) in Hy.
    apply (same_name_same_entry (iterdir path1)); auto.
    assert (Hk : sort_key x = sort_key y) by (now apply key_lt_total).
    now injection Hk.
  - rewrite !shown_entries_visible.
    rewrite !sort_by_perm. now apply Permutation_filter_bool.
Qed.

(** X5. The lines do not depend on the order in which the host lists a
    directory: two directories whose listings hold the same entries
    (with pairwise distinct names) give the same lines. *)
Theorem listing_order_irrelevant (self : TreeDrawer) (path1 path2 : node)
    (prefix : string) :
  distinct_names path1 ->
  Permutation (iterdir path1) (iterdir path2) ->
  _tree_structure self path1 prefix = _tree_structure self path2 prefix.
Proof.
  intros Hd Hp.
  rewrite (_tree_structure_unfold self path1), (_tree_structure_unfold self path2).
  rewrite !tree_body_blocks.
  now rewrite (shown_entries_listing_order self path1 path2 Hd Hp).
Qed.

Lemma rows_more_ignored (self1 self2 : TreeDrawer) (path : node) :
  ignored_patterns self1 ⊆ ignored_patterns self2 ->
  show_files self1 = show_files self2 ->
  show_hidden self1 = show_hidden self2 ->
  forall prefix1 prefix2 e,
    In e (map row_entry (_tree_rows self2 path prefix2)) ->
    In e (map row_entry (_tree_rows self1 path prefix1)).
Proof.
  intros Hsub Hf Hh.
  assert (Hvis : forall e, visible self2 e = true -> visible self1 e = true).
  { intros e. unfold visible. rewrite Hf, Hh.
    destruct (_is_ignored self1 (name e)) eqn:H1;
      [|destruct (_is_ignored self2 (name e)); cbn; [discriminate | auto]].
    assert (H2 : _is_ignored self2 (name e) = true).
    { unfold _is_ignored in *. apply existsb_exists in H1 as [p [Hp Hm]].
      apply existsb_exists. exists p. split; [|exact Hm].
      apply list_elem_of_In, elem_of_elements.
      apply list_elem_of_In, elem_of_elements in Hp. auto. }
    now rewrite H2. }
  pattern path. apply node_children_ind. clear path.
  intros path IH prefix1 prefix2 e Hin.
  apply in_map_iff in Hin as [r [<- Hin]].
  rewrite _tree_rows_unfold in Hin. unfold rows_body in Hin.
  apply in_flat_map in Hin as [[i x] [Hix Hin]].
  apply enumerate_In, list_elem_of_lookup_2, list_elem_of_In,
    shown_entries_In in Hix as [Hix Hv].
  assert (Hx : In x (shown_entries self1 path))
    by (apply shown_entries_In; auto).
  apply list_elem_of_In, list_elem_of_lookup in Hx as [k Hk].
  apply enumerate_lookup in Hk.
  rewrite (_tree_rows_unfold self1). unfold rows_body.
  rewrite map_flat_map. apply in_flat_map. exists (k, x). split; [exact Hk|].
  destruct Hin as [<- | Hin]; [now left|].
  right. destruct (is_dir x); [|contradiction].
  eapply (IH x Hix). apply in_map. exact Hin.
Qed.

(** X6. More ignore patterns never show more.  The lines of
    [_tree_structure] are, for either renderer, its rows rendered, each
    line being prefix, connector, space, the coloured name of the entry
    of the row and annotations; and with the other options equal, every
    entry that has a row under the larger ignore set has a row under the
    smaller one, at any depth. *)
Theorem more_patterns_fewer_rows (self1 self2 : TreeDrawer) (path : node)
    (prefix1 prefix2 : string) :
  ignored_patterns self1 ⊆ ignored_patterns self2 ->
  show_files self1 = show_files self2 ->
  show_hidden self1 = show_hidden self2 ->
  _tree_structure self1 path prefix1 =
    map (render self1) (_tree_rows self1 path prefix1) /\
  _tree_structure self2 path prefix2 =
    map (render self2) (_tree_rows self2 path prefix2) /\
  (forall self r,
     exists notes,
       render self r =
       row_prefix r +:+ row_connector r +:+ " " +:+
       coloured_name (row_entry r) +:+ notes) /\
  (forall e,
     In e (map row_entry (_tree_rows self2 path prefix2)) ->
     In e (map row_entry (_tree_rows self1 path prefix1))).
Proof.
  intros Hsub Hf Hh.
  split; [apply _tree_structure_rows|].
  split; [apply _tree_structure_rows|].
  split; [apply render_coloured_name|].
  intros e. now apply rows_more_ignored.
Qed.

Lemma rows_shape (self : TreeDrawer) (path : node) :
  forall prefix r, In r (_tree_rows self path prefix) ->
    (exists segments,
       row_prefix r = prefix +:+ fold_right String.append "" segments /\
       Forall (fun s => s = __WALL_STRING \/ s = __SPACE_STRING) segments) /\
    (row_connector r = __FORK_STRING \/ row_connector r = __CORNER_STRING).
Proof.
  pattern path. apply node_children_ind. clear path.
  intros path IH prefix r Hin. rewrite _tree_rows_unfold in Hin.
  unfold rows_body in Hin. apply in_flat_map in Hin as [[i e] [Hie Hin]].
  apply enumerate_In, list_elem_of_lookup_2, list_elem_of_In,
    shown_entries_In in Hie as [Hie _].
  destruct Hin as [<- | Hin].
  - cbn. split.
    + exists []. cbn. now rewrite append_nil_r.
    + unfold connector_at. destruct (Nat.eqb i _); auto.
  - destruct (is_dir e); [|contradiction].
    apply (IH e Hie) in Hin as [[segments [Hp Hs]] Hc]. split; [|exact Hc].
    exists (segment_at (length (shown_entries self path)) i :: segments).
    split; [now rewrite Hp, append_assoc|].
    constructor; [|exact Hs]. unfold segment_at. destruct (Nat.eqb i _); auto.
Qed.

(** X7. Every line of [_tree_structure] is the prefix it was called with,
    then wall and space segments only, then a fork or a corner, then the
    label of an entry beneath the directory. *)
Theorem line_shape (self : TreeDrawer) (path : node) (prefix line : string) :
  In line (_tree_structure self path prefix) ->
  exists segments connector e,
    line = prefix +:+ fold_right String.append "" segments +:+
           connector +:+ entry_line self "" "" e /\
    Forall (fun s => s = __WALL_STRING \/ s = __SPACE_STRING) segments /\
    (connector = __FORK_STRING \/ connector = __CORNER_STRING) /\
    In e (beneath path).
Proof.
  rewrite _tree_structure_rows. intros Hin.
  apply in_map_iff in Hin as [r [<- Hr]].
  destruct (rows_shape self path prefix r Hr) as [[segments [Hp Hs]] Hc].
  exists segments, (row_connector r), (row_entry r).
  split; [|split; [exact Hs | split; [exact Hc | now apply rows_beneath in Hr]]].
  unfold render. now rewrite entry_line_split, Hp, append_assoc.
Qed.

Lemma submseteq_blocks {A B : Type} (F : nat * A -> list B) (G : A -> list B)
    (l : list A) (start : nat) :
  (forall i e, In e l -> F (i, e) ⊆+ G e) ->
  flat_map F (combine (seq start (length l)) l) ⊆+ flat_map G l.
Proof.
  clear fnmatch strftime.
  revert start. induction l as [|x l IH]; intros start H; [constructor|].
  cbn [length seq combine flat_map]. apply submseteq_app.
  - apply H. now left.
  - apply IH. intros i e He. apply H. now right.
Qed.

Lemma submseteq_flat_map {A B : Type} (G : A -> list B) (l1 l2 : list A) :
  l1 ⊆+ l2 -> flat_map G l1 ⊆+ flat_map G l2.
Proof.
  clear fnmatch strftime.
  induction 1 as [| x l1 l2 H IH | x y l | x l1 l2 H IH | l1 l2 l3 H1 IH1 H2 IH2];
    cbn [flat_map].
  - constructor.
  - now apply submseteq_app.
  - rewrite !app_assoc. apply submseteq_app; [|reflexivity].
    apply Permutation_submseteq, Permutation_app_comm.
  - now apply submseteq_inserts_l.
  - now transitivity (flat_map G l2).
Qed.

Lemma filter_submseteq {A : Type} (p : A -> bool) (l : list A) :
  List.filter p l ⊆+ l.
Proof.
  clear fnmatch strftime.
  induction l as [|x l IH]; [constructor|]. cbn [List.filter].
  destruct (p x); [now apply submseteq_skip | now apply submseteq_cons].
Qed.

Lemma shown_entries_submseteq (self : TreeDrawer) (path : node) :
  shown_entries self path ⊆+ iterdir path.
Proof.
  rewrite shown_entries_visible.
  transitivity (List.filter (visible self) (iterdir path));
    [|apply filter_submseteq].
  apply Permutation_submseteq, sort_by_perm.
Qed.

Lemma beneath_iterdir (path : node) :
  beneath path = flat_map (fun e => e :: beneath (snd e)) (iterdir path).
Proof.
  clear. rewrite <- beneath_follow. unfold iterdir.
  destruct (follow path) as [| t l | | target] eqn:Hf; try reflexivity.
  exfalso. exact (follow_not_link _ _ Hf).
Qed.

Lemma beneath_not_dir (n : node) : node_is_dir n = false -> beneath n = [].
Proof.
  clear. unfold node_is_dir. rewrite <- (beneath_follow n).
  destruct (follow n) as [| t l | | target] eqn:Hf; try discriminate;
    try reflexivity.
  exfalso. exact (follow_not_link _ _ Hf).
Qed.

Lemma rows_submseteq (self : TreeDrawer) (path : node) :
  forall prefix, map row_entry (_tree_rows self path prefix) ⊆+ beneath path.
Proof.
  pattern path. apply node_children_ind. clear path.
  intros path IH prefix. rewrite _tree_rows_unfold. unfold rows_body, enumerate.
  rewrite map_flat_map, beneath_iterdir.
  transitivity (flat_map (fun e => e :: beneath (snd e)) (shown_entries self path));
    [|apply submseteq_flat_map, shown_entries_submseteq].
  apply submseteq_blocks. intros i e He.
  apply shown_entries_In in He as [He _]. cbn [map row_entry].
  apply submseteq_skip. destruct (is_dir e); [|apply submseteq_nil_l].
  apply (IH e He).
Qed.

(** X8. [_tree_structure] returns at most one line for each path beneath
    the directory: its lines are the rendered rows, and the entries of the
    rows are, with their multiplicities, a part of the paths that the walk
    can reach beneath the directory (a symbolic link to a directory is
    entered, as [is_dir()] and [iterdir()] follow it).  So there are no
    more lines than such paths. *)
Theorem at_most_one_line_per_path (self : TreeDrawer) (path : node) (prefix : string) :
  _tree_structure self path prefix =
    map (render self) (_tree_rows self path prefix) /\
  map row_entry (_tree_rows self path prefix) ⊆+ beneath path /\
  (length (_tree_structure self path prefix) <= length (beneath path))%nat.
Proof.
  split; [apply _tree_structure_rows|]. split; [apply rows_submseteq|].
  rewrite _tree_structure_rows, length_map.
  rewrite <- (length_map row_entry). apply submseteq_length, rows_submseteq.
Qed.

(** ** Further properties of [draw] *)

Lemma draw_cases (self : TreeDrawer) (fs root : node) (as_string : bool)
    (save_path : option Path) (tr : list effect) :
  resolve fs (path self) = Some root -> node_is_dir root = true ->
  let output :=
    String.concat NL (root_line self root :: _tree_structure self root "") in
  let shown := if as_string then [] else [Print output] in
  let text := if as_string then output else "" in
  draw self fs as_string save_path tr =
  match save_path with
  | None => (inr text, tr ++ shown)
  | Some dest =>
      let file := path_join dest "tree_structure.txt" in
      if can_open_w fs file
      then (inr text,
            tr ++ [WriteFile file
                     (replace Fore_WHITE ""
                        (replace Fore_GREEN "" (replace Fore_BLUE "" output)));
                   Print ("Tree structure saved to " +:+ path_str file)] ++ shown)
      else (inl OSError, tr)
  end.
Proof.
  intros Hr Hd. unfold draw. rewrite Hr, Hd. cbn [negb].
  cbn zeta. unfold bind, write_text, emit, ret, raise.
  destruct save_path as [dest|].
  - destruct (can_open_w fs (path_join dest "tree_structure.txt"));
      [|reflexivity].
    destruct as_string; rewrite <- ?app_assoc; cbn [app];
      rewrite ?app_nil_r; reflexivity.
  - destruct as_string; rewrite ?app_nil_r; reflexivity.
Qed.

Lemma draw_not_dir (self : TreeDrawer) (fs : node) (as_string : bool)
    (save_path : option Path) (tr : list effect) :
  (forall root, resolve fs (path self) = Some root -> node_is_dir root = false) ->
  draw self fs as_string save_path tr =
  (inl (ValueError "The specified path is not a directory."), tr).
Proof.
  intros H. unfold draw.
  destruct (resolve fs (path self)) as [root|] eqn:Hr; [|reflexivity].
  now rewrite (H root eq_refl).
Qed.

(** X9. When the root is a directory but the export file cannot be
    opened, [draw] raises the error of [open] and leaves nothing behind:
    no file, no message, and the tree is not printed either, whatever
    [as_string] is. *)
Theorem export_failure_aborts (self : TreeDrawer) (fs : node) (as_string : bool)
    (dest : Path) (tr : list effect) :
  path_is_dir fs (path self) = true ->
  can_open_w fs (path_join dest "tree_structure.txt") = false ->
  draw self fs as_string (Some dest) tr = (inl OSError, tr).
Proof.
  unfold path_is_dir. intros Hd Hw.
  destruct (resolve fs (path self)) as [root|] eqn:Hr; [|discriminate].
  rewrite (draw_cases self fs root as_string (Some dest) tr Hr Hd).
  cbn zeta. now rewrite Hw.
Qed.

(** X10. The two modes of [draw] do the same up to the last step: where
    the call with [as_string] on returns a text, the call with
    [as_string] off leaves the same effects, then prints that text, and
    returns the empty string; where one raises, the other raises the
    same error with the same effects. *)
Theorem print_or_return (self : TreeDrawer) (fs : node) (save_path : option Path)
    (tr : list effect) :
  match draw self fs true save_path tr with
  | (inr text, tr') =>
      draw self fs false save_path tr = (inr "", tr' ++ [Print text])
  | (inl e, tr') => draw self fs false save_path tr = (inl e, tr')
  end.
Proof.
  destruct (resolve fs (path self)) as [root|] eqn:Hr.
  - destruct (node_is_dir root) eqn:Hd.
    + rewrite !(draw_cases self fs root _ save_path tr Hr Hd). cbn zeta.
      destruct save_path as [dest|].
      * destruct (can_open_w fs (path_join dest "tree_structure.txt"));
          [|reflexivity].
        rewrite app_nil_r, <- app_assoc. reflexivity.
      * now rewrite app_nil_r.
    + rewrite !draw_not_dir; [reflexivity | |]; intros r Hr'; congruence.
  - rewrite !draw_not_dir; [reflexivity | |]; intros r Hr'; congruence.
Qed.

(** ** Further properties of the sizes *)

Lemma fold_left_add_nonneg (l : list Z) :
  Forall (fun x => 0 <= x) l -> 0 <= fold_left Z.add l 0.
Proof.
  clear fnmatch strftime.
  induction 1 as [|x l Hx Hl IH]; cbn; [lia|].
  rewrite fold_left_add. lia.
Qed.

Lemma total_size_counted (path : node) :
  total_size path = counted_bytes (follow path).
Proof. apply rglob_total. Qed.

Lemma counted_bytes_child (e : Entry) :
  counted_bytes (snd e) = if is_symlink e then 0 else total_size (snd e).
Proof.
  rewrite total_size_counted. unfold is_symlink. now destruct (snd e).
Qed.

Lemma follow_unlinked (e : Entry) : is_symlink e = false -> follow (snd e) = snd e.
Proof. clear. unfold is_symlink. now destruct (snd e). Qed.

Lemma fold_right_terms (A : Type) (f : A -> Z) (l : list A) :
  (forall x, In x l -> 0 <= f x) ->
  0 <= fold_right (fun e acc => f e + acc) 0 l /\
  (forall x, In x l -> f x <= fold_right (fun e acc => f e + acc) 0 l).
Proof.
  clear fnmatch strftime.
  induction l as [|y l IH]; intros H; cbn [fold_right];
    [split; [lia | intros x []]|].
  destruct IH as [IH0 IH1]; [intros x Hx; apply H; now right|].
  pose proof (H y (or_introl eq_refl)) as Hy.
  split; [lia|]. intros x [<- | Hx]; [lia|]. specialize (IH1 x Hx). lia.
Qed.

(** X11. The sum that [_get_directory_size] formats is, for a directory,
    the sum over its listing of: the size of each regular file (through a
    link too), nothing for a symbolic link to anything else, which
    [rglob] does not enter, and the same sum for each other entry.  When
    no file that [rglob] finds has a negative size, the sum is not
    negative and is at least the sum of every listed entry that is not a
    symbolic link. *)
Theorem total_size_of_children (self : TreeDrawer) (path : node) :
  node_is_dir path = true ->
  (forall e, In e (rglob path) -> 0 <= st_size e) ->
  _get_directory_size self path = _get_size (total_size path) /\
  total_size path =
    fold_right
      (fun e acc =>
         (if is_file e then st_size e
          else if is_symlink e then 0
          else total_size (snd e)) + acc)
      0 (iterdir path) /\
  0 <= total_size path /\
  (forall e, In e (iterdir path) -> is_symlink e = false ->
     total_size (snd e) <= total_size path).
Proof.
  intros Hd Hpos.
  assert (Hnn : forall p, (forall e, In e (rglob p) -> 0 <= st_size e) ->
                          0 <= total_size p).
  { intros p Hp. unfold total_size. apply fold_left_add_nonneg.
    apply List.Forall_forall. intros x Hx.
    apply in_map_iff in Hx as [e [<- He]].
    apply List.filter_In in He as [He _]. auto. }
  split; [reflexivity|].
  unfold node_is_dir in Hd. unfold rglob in Hpos.
  assert (Hl : iterdir path = match follow path with Dir _ l => l | _ => [] end)
    by reflexivity.
  rewrite Hl, (total_size_counted path).
  destruct (follow path) as [| t l | |]; try discriminate. clear Hd Hl.
  cbn [rglob_below counted_bytes] in *.
  set (term := fun e : Entry =>
         if is_file e then st_size e
         else if is_symlink e then 0 else total_size (snd e)).
  assert (Hsum :
    fold_right
      (fun e acc => (if is_file e then st_size e else counted_bytes (snd e)) + acc)
      0 l =
    fold_right (fun e acc => term e + acc) 0 l).
  { clear Hpos. induction l as [|e l IH]; [reflexivity|]. cbn [fold_right].
    rewrite IH. unfold term. now rewrite counted_bytes_child. }
  assert (Hterm : forall e, In e l -> 0 <= term e).
  { intros e He. unfold term. destruct (is_file e).
    - apply Hpos, in_flat_map. exists e. split; [exact He | now left].
    - destruct (is_symlink e) eqn:Hs; [lia|].
      apply Hnn. intros y Hy. apply Hpos, in_flat_map. exists e.
      split; [exact He|]. right. unfold rglob in Hy.
      now rewrite follow_unlinked in Hy. }
  destruct (fold_right_terms _ term l Hterm) as [H0 H1].
  split; [exact Hsum|]. rewrite Hsum.
  split; [exact H0|]. intros e He Hs.
  specialize (H1 e He). unfold term in H1. rewrite Hs in H1.
  destruct (is_file e) eqn:Hf; [|exact H1].
  assert (total_size (snd e) = 0); [|lia].
  rewrite total_size_counted. unfold is_file, node_is_file in Hf.
  now destruct (follow (snd e)).
Qed.

(** ** Further properties of the export *)

Lemma strip_app (a b : string) :
  styled a -> strip_markers (a +:+ b) = strip_markers a +:+ strip_markers b.
Proof.
  clear fnmatch strftime.
  induction 1 as [| c s Hc Hs IH | m s Hm Hs IH].
  - reflexivity.
  - rewrite append_cons.
    rewrite (strip_char c (s +:+ b)), (strip_char c s), IH by assumption.
    now rewrite append_cons.
  - rewrite append_assoc.
    rewrite (strip_mark m (s +:+ b)), (strip_mark m s) by assumption. exact IH.
Qed.

Lemma strip_plain (s : string) : styled s -> esc_free (strip_markers s) = true.
Proof.
  clear fnmatch strftime.
  induction 1 as [| c s Hc Hs IH | m s Hm Hs IH].
  - reflexivity.
  - rewrite strip_char by assumption. cbn. rewrite IH, andb_true_r.
    now apply negb_true_iff, Ascii.eqb_neq.
  - rewrite strip_mark by assumption. exact IH.
Qed.

Lemma strip_concat (lines : list string) :
  Forall styled lines ->
  strip_markers (String.concat NL lines) =
  String.concat NL (map strip_markers lines).
Proof.
  clear fnmatch strftime.
  induction 1 as [|x l Hx Hl IH]; [reflexivity|].
  destruct l as [|y l]; [reflexivity|].
  change (String.concat NL (x :: y :: l))
    with (x +:+ NL +:+ String.concat NL (y :: l)).
  rewrite strip_app by assumption.
  rewrite (strip_app NL) by (apply esc_free_styled; reflexivity).
  rewrite IH. reflexivity.
Qed.

Lemma styled_lines (self : TreeDrawer) (root : node) :
  (forall t, esc_free (strftime t) = true) ->
  esc_free (path_name (path self)) = true ->
  (forall r, In r (_tree_rows self root "") ->
             esc_free (name (row_entry r)) = true) ->
  Forall styled (root_line self root :: _tree_structure self root "").
Proof.
  intros Ht Hn Hp. constructor.
  - now apply styled_root_line.
  - rewrite _tree_structure_rows. apply List.Forall_forall. intros line Hin.
    apply in_map_iff in Hin as [r [<- Hr]].
    destruct (styled_row_parts self root "" r styled_nil Hr) as [H1 H2].
    apply styled_entry_line; auto.
Qed.

(** X12. When no rendered name and no time stamp contains ESC, a
    successful export writes the lines of the tree one by one with their
    markers taken out, joined by newlines as in the styled text, and the
    file holds no ESC character. *)
Theorem export_line_by_line (self : TreeDrawer) (fs : node) (as_string : bool)
    (dest : Path) (tr tr' : list effect) (text : string) :
  draw self fs as_string (Some dest) tr = (inr text, tr') ->
  (forall t, esc_free (strftime t) = true) ->
  esc_free (path_name (path self)) = true ->
  exists root,
    resolve fs (path self) = Some root /\
    ((forall r, In r (_tree_rows self root "") ->
                esc_free (name (row_entry r)) = true) ->
     let lines := root_line self root :: _tree_structure self root "" in
     let content := String.concat NL (map strip_markers lines) in
     In (WriteFile (path_join dest "tree_structure.txt") content) tr' /\
     esc_free content = true).
Proof.
  intros Hdraw Ht Hn.
  destruct (resolve fs (path self)) as [root|] eqn:Hr;
    [|rewrite draw_not_dir in Hdraw; [discriminate | intros r Hr'; congruence]].
  destruct (node_is_dir root) eqn:Hd;
    [|rewrite draw_not_dir in Hdraw; [discriminate | intros r Hr'; congruence]].
  exists root. split; [reflexivity|]. intros Hp lines content.
  pose proof (styled_lines self root Ht Hn Hp) as Hstyled.
  assert (Hcontent :
    replace Fore_WHITE ""
      (replace Fore_GREEN "" (replace Fore_BLUE "" (String.concat NL lines))) =
    content).
  { rewrite replace_thrice_strips by now apply styled_concat.
    now apply strip_concat. }
  rewrite (draw_cases self fs root as_string (Some dest) tr Hr Hd) in Hdraw.
  lazy zeta in Hdraw.
  destruct (can_open_w fs (path_join dest "tree_structure.txt"));
    [|discriminate].
  injection Hdraw as _ <-. split.
  - apply in_app_iff. right. left. f_equal. exact Hcontent.
  - unfold content. rewrite <- strip_concat by assumption.
    apply strip_plain. now apply styled_concat.
Qed.

(** ** Further properties of the size formatter *)

Lemma round_half_even_mono (a a' b : Z) :
  0 < b -> a <= a' -> round_half_even a b <= round_half_even a' b.
Proof.
  clear fnmatch strftime.
  intros Hb Hle. unfold round_half_even.
  pose proof (Z.div_mod a b ltac:(lia)) as Ha.
  pose proof (Z.div_mod a' b ltac:(lia)) as Ha'.
  pose proof (Z.mod_pos_bound a b Hb) as Hm.
  pose proof (Z.mod_pos_bound a' b Hb) as Hm'.
  pose proof (Z.div_le_mono a a' b Hb Hle) as Hq.
  destruct (Z.eq_dec (a / b) (a' / b)) as [Heq | Hne].
  - rewrite <- Heq in *.
    destruct (Z.compare_spec (2 * (a mod b)) b);
      destruct (Z.compare_spec (2 * (a' mod b)) b);
      destruct (Z.even (a / b)); nia.
  - destruct (Z.compare_spec (2 * (a mod b)) b);
      destruct (Z.compare_spec (2 * (a' mod b)) b);
      destruct (Z.even (a / b)); destruct (Z.even (a' / b)); lia.
Qed.

(** X13. Within the KB tier, and within the MB tier below [2^53], a
    larger size is never shown as a smaller number: the tenths shown for
    [n] are at most the tenths shown for [m] when [n <= m].  The top of
    the KB tier shows [1024.0 KB]. *)
Theorem shown_tenths_monotone (n m : Z) :
  n <= m ->
  (1024 <= n -> m < 1048576 ->
   exists qn qm,
     qn <= qm /\
     _get_size n =
       "(" +:+ str_of_int (qn / 10) +:+ "." +:+ str_of_int (qn mod 10) +:+ " KB)" /\
     _get_size m =
       "(" +:+ str_of_int (qm / 10) +:+ "." +:+ str_of_int (qm mod 10) +:+ " KB)") /\
  (1048576 <= n -> m < 2 ^ 53 ->
   exists qn qm,
     qn <= qm /\
     _get_size n =
       "(" +:+ str_of_int (qn / 10) +:+ "." +:+ str_of_int (qn mod 10) +:+ " MB)" /\
     _get_size m =
       "(" +:+ str_of_int (qm / 10) +:+ "." +:+ str_of_int (qm mod 10) +:+ " MB)") /\
  (1048525 <= n < 1048576 -> _get_size n = "(1024.0 KB)").
Proof.
  clear fnmatch strftime.
  intros Hle.
  assert (Hkb : forall k, 1024 <= k < 1048576 ->
            _get_size k =
            "(" +:+ str_of_int (round_half_even (10 * k) 1024 / 10) +:+ "." +:+
            str_of_int (round_half_even (10 * k) 1024 mod 10) +:+ " KB)").
  { intros k Hk. unfold _get_size. destruct (Z.ltb_spec k 1024); [lia|].
    destruct (Z.ltb_spec k (1024 * 1024)); [|lia].
    change 1024 with (2 ^ 10) at 1 2 3.
    rewrite format_1f_pow2 by lia. now rewrite !append_assoc. }
  assert (Hmb : forall k, 1048576 <= k < 2 ^ 53 ->
            _get_size k =
            "(" +:+ str_of_int (round_half_even (10 * k) 1048576 / 10) +:+ "." +:+
            str_of_int (round_half_even (10 * k) 1048576 mod 10) +:+ " MB)").
  { intros k Hk. unfold _get_size. destruct (Z.ltb_spec k 1024); [lia|].
    destruct (Z.ltb_spec k (1024 * 1024)); [lia|].
    change (1024 * 1024) with (2 ^ 20).
    rewrite format_1f_pow2 by lia. now rewrite !append_assoc. }
  split; [|split].
  - intros Hn Hm. eexists _, _. split; [|split; apply Hkb; lia].
    apply round_half_even_mono; lia.
  - intros Hn Hm. eexists _, _. split; [|split; apply Hmb; lia].
    apply round_half_even_mono; lia.
  - intros [Hn Hm]. rewrite Hkb by lia.
    assert (Hq : round_half_even (10 * n) 1024 = 10240).
    { unfold round_half_even.
      pose proof (Z.div_mod (10 * n) 1024 ltac:(lia)) as Hd.
      pose proof (Z.mod_pos_bound (10 * n) 1024 ltac:(lia)) as Hb.
      destruct (Z.compare_spec (2 * ((10 * n) mod 1024)) 1024);
        [destruct (Z.even (10 * n / 1024)) eqn:He| |]; lia. }
    rewrite Hq. reflexivity.
Qed.

(** ** Nothing filtered *)

Lemma flat_map_blocks_perm {A B : Type} (F : nat * A -> list B)
    (G : A -> list B) (l : list A) (start : nat) :
  (forall i e, In e l -> Permutation (F (i, e)) (G e)) ->
  Permutation (flat_map F (combine (seq start (length l)) l)) (flat_map G l).
Proof.
  clear fnmatch strftime.
  revert start. induction l as [|x l IH]; intros start H; [reflexivity|].
  cbn [length seq combine flat_map]. apply Permutation_app.
  - apply H. now left.
  - apply IH. intros i e He. apply H. now right.
Qed.

(** X14. With no ignore pattern, [show_files] on and [show_hidden] on,
    the rows of [_tree_structure] are, up to their order, the paths
    beneath the directory, each once. *)
Theorem unfiltered_walk_is_complete (self : TreeDrawer) (dir : node) (prefix : string) :
  ignored_patterns self = ∅ ->
  show_files self = true ->
  show_hidden self = true ->
  Permutation (map row_entry (_tree_rows self dir prefix)) (beneath dir) /\
  length (_tree_structure self dir prefix) = length (beneath dir).
Proof.
  intros Hi Hf Hh.
  assert (Hvis : forall e, visible self e = true).
  { intros e. unfold visible, _is_ignored.
    now rewrite Hi, elements_empty, Hf, Hh. }
  assert (Hperm : forall p pre,
            Permutation (map row_entry (_tree_rows self p pre)) (beneath p)).
  { intros p. pattern p. apply node_children_ind. clear p.
    intros p IH pre. rewrite _tree_rows_unfold. unfold rows_body, enumerate.
    rewrite map_flat_map.
    rewrite (beneath_iterdir p).
    transitivity (flat_map (fun e => e :: beneath (snd e)) (shown_entries self p)).
    - apply flat_map_blocks_perm. intros i e He.
      apply shown_entries_In in He as [He _]. cbn [map row_entry].
      constructor. unfold is_dir.
      destruct (node_is_dir (snd e)) eqn:Hd; [now apply IH|].
      now rewrite beneath_not_dir.
    - rewrite shown_entries_visible.
      rewrite (Permutation_flat_map _ (sort_by_perm key_lt sort_key _)).
      assert (Hall : List.filter (visible self) (iterdir p) = iterdir p).
      { clear IH. induction (iterdir p) as [|x l IHl]; [reflexivity|]. cbn.
        now rewrite Hvis, IHl. }
      now rewrite Hall. }
  split; [apply Hperm|].
  rewrite _tree_structure_rows, length_map, <- (length_map row_entry).
  apply Permutation_length, Hperm.
Qed.

End Renderer.


(** ** The theorems on the example data *)

Lemma sample_distinct : distinct_names sample_root.
Proof.
  unfold distinct_names.
  apply (bool_decide_unpack (NoDup (map name (iterdir sample_root)))).
  vm_compute. exact I.
Defined.

Lemma corner_connector_last_example :
  shown_entries glob sample_drawer sample_root <> [] /\
  map row_connector
    (level_rows "" (_tree_rows glob sample_drawer sample_root "")) =
  [__FORK_STRING; __FORK_STRING; __FORK_STRING; __CORNER_STRING].
Proof.
  assert (H : shown_entries glob sample_drawer sample_root <> [])
    by (vm_compute; discriminate).
  split; [exact H|].
  destruct (corner_connector_last glob strftime_utc sample_drawer sample_root "" H)
    as (_ & _ & Hc & _).
  vm_compute in Hc. vm_compute. exact Hc.
Defined.

Lemma recursive_prefix_example :
  let line := __WALL_STRING +:+ __CORNER_STRING +:+ " " +:+ Fore_GREEN +:+ "x.txt" in
  In line (_tree_structure glob strftime_utc sample_drawer sample_root "") /\
  String.prefix __WALL_STRING line = true.
Proof.
  intros line.
  destruct (recursive_prefix glob strftime_utc sample_drawer sample_root "")
    as (_ & H & _).
  apply (H 0%nat ("a", Dir 1700000000 [("x.txt", File 500 1700000000)]) line).
  - vm_compute. reflexivity.
  - reflexivity.
  - vm_compute. left. reflexivity.
Defined.

Lemma directories_first_sorted_example :
  distinct_names sample_root /\
  (1 < 5)%nat /\ String.ltb ".env" "root.txt" = true.
Proof.
  split; [exact sample_distinct|].
  destruct (directories_first_sorted glob strftime_utc sample_drawer_all
              sample_root "" sample_distinct) as (_ & _ & _ & Hfirst & Hsorted).
  split.
  - apply (Hfirst 1%nat 5%nat
             ("a", Dir 1700000000 [("x.txt", File 500 1700000000)])
             ("root.txt", File 100 1700000000));
      vm_compute; reflexivity.
  - apply (Hsorted 4%nat 5%nat
             (".env", File 7 1700000000) ("root.txt", File 100 1700000000));
      [lia | vm_compute; reflexivity | vm_compute; reflexivity |
       right; split; reflexivity].
Defined.

Lemma ignore_filter_exact_example :
  let b := Dir 1700000100
             [("z.pyc", File 2048 1700000000); ("y.txt", File 1 0)] in
  let shown := map row_entry (level_rows "" (_tree_rows glob sample_drawer b "")) in
  distinct_names b /\
  shown = [("y.txt", File 1 0)] /\
  count_occ string_dec (map name shown) "y.txt" = 1%nat.
Proof.
  intros b shown.
  assert (Hd : distinct_names b).
  { unfold distinct_names.
    apply (bool_decide_unpack (NoDup (map name (iterdir b)))).
    vm_compute. exact I. }
  split; [exact Hd|]. split; [vm_compute; reflexivity|].
  destruct (ignore_filter_exact glob strftime_utc sample_drawer b "" Hd)
    as (_ & _ & _ & Hin).
  apply (Hin ("y.txt", File 1 0)).
  - right. left. reflexivity.
  - intros pattern Hp. unfold sample_drawer, __init__ in Hp.
    cbn [ignored_patterns] in Hp.
    apply elem_of_list_to_set, list_elem_of_In in Hp.
    destruct Hp as [<- | [<- | []]]; reflexivity.
  - left. reflexivity.
  - right. reflexivity.
Defined.

Lemma hidden_names_below_root_example :
  resolve sample_fs (path sample_drawer) = Some sample_root /\
  node_is_dir sample_root = true /\
  show_hidden sample_drawer = false /\
  (forall r, In r (_tree_rows glob sample_drawer sample_root "") ->
             _is_hidden (name (row_entry r)) = false).
Proof.
  assert (Hr : resolve sample_fs (path sample_drawer) = Some sample_root)
    by reflexivity.
  assert (Hd : node_is_dir sample_root = true) by reflexivity.
  repeat split.
  destruct (hidden_names_below_root glob strftime_utc sample_drawer sample_fs
              sample_root Hr Hd) as (_ & H & _).
  apply H. reflexivity.
Defined.


Lemma _get_size_tiers_example :
  1024 <= 1280 < 1048576 /\ _get_size 1280 = "(1.2 KB)" /\
  _get_size 1048575 = "(1024.0 KB)" /\ _get_size 5000000 = "(4.8 MB)".
Proof.
  assert (Hr : 1024 <= 1280 < 1048576) by lia.
  split; [exact Hr|].
  destruct (_get_size_tiers 1280) as (_ & Hkb & _).
  destruct (Hkb Hr) as [H _]. split; [|split].
  - rewrite H. vm_compute. reflexivity.
  - destruct (_get_size_tiers 1048575) as (_ & Hkb' & _).
    destruct (Hkb' ltac:(lia)) as [H' _]. rewrite H'. vm_compute. reflexivity.
  - destruct (_get_size_tiers 5000000) as (_ & _ & Hmb & _).
    destruct (Hmb ltac:(lia)) as [H' _]. rewrite H'. vm_compute. reflexivity.
Defined.

Lemma draw_invalid_root_example :
  let self := __init__ ["proj"; "root.txt"] [] true false false false in
  path_is_dir sample_fs (path self) = false /\
  draw glob strftime_utc self sample_fs false (Some ["out"]) [] =
  (inl (ValueError "The specified path is not a directory."), []).
Proof.
  intros self.
  assert (H : path_is_dir sample_fs (path self) = false) by reflexivity.
  split; [exact H|].
  exact (draw_invalid_root glob strftime_utc self sample_fs false
           (Some ["out"]) [] H).
Defined.

Lemma esc_free_pad (width : nat) (s : string) :
  esc_free s = true -> esc_free (pad width s) = true.
Proof.
  intros H. unfold pad. rewrite esc_free_append, H, andb_true_r.
  induction (width - String.length s)%nat as [|k IH]; [reflexivity | exact IH].
Qed.

Lemma esc_free_strftime_utc (t : Z) : esc_free (strftime_utc t) = true.
Proof.
  unfold strftime_utc. destruct (civil_from_days (t / 86400)) as [[y m] d].
  rewrite !esc_free_append, !esc_free_pad by apply esc_free_str_of_int.
  reflexivity.
Qed.

Lemma sample_plain (r : row) :
  In r (_tree_rows glob sample_drawer sample_root "") ->
  esc_free (name (row_entry r)) = true.
Proof.
  revert r. apply List.Forall_forall. vm_compute. repeat constructor.
Defined.

Lemma export_strips_markers_example :
  exists text tr',
    draw glob strftime_utc sample_drawer sample_fs true (Some ["out"]) [] =
      (inr text, tr') /\
    tr' = [WriteFile ["out"; "tree_structure.txt"] (strip_markers text);
           Print "Tree structure saved to out/tree_structure.txt"].
Proof.
  destruct (draw glob strftime_utc sample_drawer sample_fs true (Some ["out"]) [])
    as [[e | text] tr'] eqn:Hdraw; [vm_compute in Hdraw; discriminate|].
  exists text, tr'. split; [reflexivity|].
  destruct (export_strips_markers glob strftime_utc sample_drawer sample_fs true
              ["out"] [] tr' text Hdraw) as (root & Hr & _ & Ht & Htr & Hstrip).
  injection Hr as <-. cbn zeta in Ht, Htr, Hstrip.
  rewrite Hstrip in Htr;
    [|reflexivity | exact sample_plain | exact esc_free_strftime_utc].
  rewrite <- Ht in Htr. exact Htr.
Defined.

Lemma ignored_list_as_set_example :
  (forall pattern,
     In pattern ["*.pyc"; "*.log"; "*.pyc"] <-> In pattern ["*.log"; "*.pyc"]) /\
  draw glob strftime_utc
    (__init__ ["proj"] ["*.pyc"; "*.log"; "*.pyc"] true false false false)
    sample_fs true None [] =
  draw glob strftime_utc
    (__init__ ["proj"] ["*.log"; "*.pyc"] true false false false)
    sample_fs true None [].
Proof.
  assert (H : forall pattern,
            In pattern ["*.pyc"; "*.log"; "*.pyc"] <->
            In pattern ["*.log"; "*.pyc"]).
  { intros pattern. cbn. tauto. }
  split; [exact H|].
  destruct (ignored_list_as_set glob strftime_utc ["proj"] _ _
              true false false false H) as (_ & _ & _ & Hdraw).
  apply Hdraw.
Defined.

(** With the default options: the root line, then [a/] with a fork, its
    child behind a wall, then [root.txt] with the corner. *)
Example scenario_output :
  draw glob strftime_utc (__init__ ["root"] [] true false false false)
    scenario_fs true None [] =
  (inr (Fore_BLUE +:+ "root/" +:+ NL +:+
        __FORK_STRING +:+ " " +:+ Fore_BLUE +:+ "a/" +:+ NL +:+
        __WALL_STRING +:+ __CORNER_STRING +:+ " " +:+ Fore_GREEN +:+ "x.txt" +:+ NL +:+
        __CORNER_STRING +:+ " " +:+ Fore_GREEN +:+ "root.txt"), []).
Proof. vm_compute. reflexivity. Qed.

(** ** Where the specification and the code part *)

(** C5 as the specification words it fails on a root whose own name
    starts with a dot: with [show_hidden] off, the first line that [draw]
    returns is the line of [.git]. *)
Lemma hidden_root_is_rendered :
  show_hidden dotted_drawer = false /\
  _is_hidden (path_name (path dotted_drawer)) = true /\
  draw glob strftime_utc dotted_drawer dotted_fs true None [] =
  (inr (Fore_BLUE +:+ ".git/" +:+ NL +:+
        __CORNER_STRING +:+ " " +:+ Fore_GREEN +:+ "config"), []).
Proof. repeat split. Qed.

(** C3 as the specification words it fails on an entry that is neither a
    directory nor a regular file: the FIFO [m] is rendered as files are,
    in green and without a slash, and it stands before the directory [z],
    since its key is [(False, "m")]. *)
Lemma special_entry_before_directory :
  is_dir ("m", Other 0) = false /\
  is_file ("m", Other 0) = false /\
  draw glob strftime_utc mixed_drawer mixed_fs true None [] =
  (inr (Fore_BLUE +:+ "r/" +:+ NL +:+
        __FORK_STRING +:+ " " +:+ Fore_GREEN +:+ "m" +:+ NL +:+
        __FORK_STRING +:+ " " +:+ Fore_BLUE +:+ "z/" +:+ NL +:+
        __CORNER_STRING +:+ " " +:+ Fore_GREEN +:+ "b.txt"), []).
Proof. repeat split. Qed.


(** C9 as the specification words it fails on names that contain ESC.
    For the first name the file loses the whole name, although only the
    blue marker inside it is a marker of the styled text; for the second
    the file still holds a blue marker. *)
Lemma export_changes_more_than_markers :
  let styled_text (file_name : string) :=
    Fore_BLUE +:+ "d/" +:+ NL +:+
    __CORNER_STRING +:+ " " +:+ Fore_GREEN +:+ file_name in
  let saved := Print "Tree structure saved to out/tree_structure.txt" in
  draw glob strftime_utc escape_drawer (escape_fs split_white_name) true
    (Some ["out"]) [] =
  (inr (styled_text split_white_name),
   [WriteFile ["out"; "tree_structure.txt"] ("d/" +:+ NL +:+ "└── "); saved]) /\
  strip_markers (styled_text split_white_name) =
    "d/" +:+ NL +:+ "└── " +:+ Fore_WHITE /\
  "d/" +:+ NL +:+ "└── " <> strip_markers (styled_text split_white_name) /\
  draw glob strftime_utc escape_drawer (escape_fs split_blue_name) true
    (Some ["out"]) [] =
  (inr (styled_text split_blue_name),
   [WriteFile ["out"; "tree_structure.txt"]
      ("d/" +:+ NL +:+ "└── " +:+ Fore_BLUE); saved]).
Proof.
  intros styled_text saved.
  split; [vm_compute; reflexivity|].
  split; [vm_compute; reflexivity|].
  split; [vm_compute; discriminate | vm_compute; reflexivity].
Qed.

(** ** The further properties on the example data *)

Lemma directories_only_example :
  show_files sample_drawer_dirs = false /\
  Forall (fun r => is_dir (row_entry r) = true)
    (_tree_rows glob sample_drawer_dirs sample_root "").
Proof.
  assert (H : show_files sample_drawer_dirs = false) by reflexivity.
  split; [exact H|].
  destruct (directories_only glob strftime_utc sample_drawer_dirs sample_root "" H)
    as [_ Hdirs].
  apply List.Forall_forall. exact Hdirs.
Defined.

Lemma no_lines_iff_nothing_shown_example :
  let cache := Dir 1700000000 [(".lock", File 3000 1700000000)] in
  shown_entries glob sample_drawer cache = [] /\
  _tree_structure glob strftime_utc sample_drawer cache "   " = [].
Proof.
  intros cache.
  assert (H : shown_entries glob sample_drawer cache = [])
    by (vm_compute; reflexivity).
  split; [exact H|].
  destruct (no_lines_iff_nothing_shown glob strftime_utc sample_drawer cache "   ")
    as [[_ Hnil] _].
  exact (Hnil H).
Defined.

Lemma children_in_key_order_example :
  distinct_names sample_root /\
  ((is_file ("pipe", Other 5) = false /\
    is_file (".env", File 7 1700000000) = true) \/
   (is_file ("pipe", Other 5) = is_file (".env", File 7 1700000000) /\
    String.ltb "pipe" ".env" = true)).
Proof.
  split; [exact sample_distinct|].
  destruct (children_in_key_order glob strftime_utc sample_drawer_all
              sample_root "" sample_distinct) as (_ & _ & Horder).
  apply (Horder 7%nat 8%nat
           {| row_prefix := ""; row_connector := __FORK_STRING;
              row_entry := ("pipe", Other 5) |}
           {| row_prefix := ""; row_connector := __FORK_STRING;
              row_entry := (".env", File 7 1700000000) |});
    [lia | vm_compute; reflexivity | vm_compute; reflexivity |
     reflexivity | reflexivity].
Defined.

Lemma listing_order_irrelevant_example :
  distinct_names sample_root /\
  Permutation (iterdir sample_root) (iterdir sample_root_relisted) /\
  _tree_structure glob strftime_utc sample_drawer sample_root "" =
  _tree_structure glob strftime_utc sample_drawer sample_root_relisted "".
Proof.
  assert (Hp : Permutation (iterdir sample_root) (iterdir sample_root_relisted))
    by apply Permutation_rev.
  split; [exact sample_distinct|]. split; [exact Hp|].
  exact (listing_order_irrelevant glob strftime_utc sample_drawer sample_root
           sample_root_relisted "" sample_distinct Hp).
Defined.

Lemma more_patterns_fewer_rows_example :
  ignored_patterns sample_drawer_plain ⊆ ignored_patterns sample_drawer /\
  In ("y.txt", File 1 0)
    (map row_entry (_tree_rows glob sample_drawer_plain sample_root "")).
Proof.
  assert (Hsub : ignored_patterns sample_drawer_plain ⊆
                 ignored_patterns sample_drawer).
  { intros x Hx. unfold sample_drawer_plain, __init__ in Hx.
    cbn [ignored_patterns] in Hx. apply elem_of_list_to_set in Hx. inversion Hx. }
  split; [exact Hsub|].
  destruct (more_patterns_fewer_rows glob strftime_utc sample_drawer_plain
              sample_drawer sample_root "" "" Hsub eq_refl eq_refl)
    as (_ & _ & _ & Hrows).
  apply Hrows.
  vm_compute. do 3 right. left. reflexivity.
Defined.

Lemma line_shape_example :
  let line :=
    __WALL_STRING +:+ __CORNER_STRING +:+ " " +:+ Fore_GREEN +:+ "x.txt" in
  In line (_tree_structure glob strftime_utc sample_drawer sample_root "") /\
  exists segments connector e,
    line = "" +:+ fold_right String.append "" segments +:+
           connector +:+ entry_line strftime_utc sample_drawer "" "" e /\
    Forall (fun s => s = __WALL_STRING \/ s = __SPACE_STRING) segments /\
    (connector = __FORK_STRING \/ connector = __CORNER_STRING) /\
    In e (beneath sample_root).
Proof.
  intros line.
  assert (H : In line (_tree_structure glob strftime_utc sample_drawer sample_root ""))
    by (vm_compute; right; left; reflexivity).
  split; [exact H|].
  exact (line_shape glob strftime_utc sample_drawer sample_root "" line H).
Defined.

Lemma export_failure_aborts_example :
  path_is_dir sample_fs (path sample_drawer) = true /\
  can_open_w sample_fs (path_join ["missing"] "tree_structure.txt") = false /\
  draw glob strftime_utc sample_drawer sample_fs false (Some ["missing"]) [] =
  (inl OSError, []).
Proof.
  assert (Hd : path_is_dir sample_fs (path sample_drawer) = true) by reflexivity.
  assert (Hw : can_open_w sample_fs (path_join ["missing"] "tree_structure.txt")
               = false) by reflexivity.
  split; [exact Hd|]. split; [exact Hw|].
  exact (export_failure_aborts glob strftime_utc sample_drawer sample_fs false
           ["missing"] [] Hd Hw).
Defined.

Lemma total_size_of_children_example :
  let b := Dir 1700000100
             [("z.pyc", File 2048 1700000000); ("y.txt", File 1 0)] in
  node_is_dir sample_root = true /\
  (forall e, In e (rglob sample_root) -> 0 <= st_size e) /\
  total_size b <= total_size sample_root.
Proof.
  intros b.
  assert (Hd : node_is_dir sample_root = true) by reflexivity.
  assert (Hpos : forall e, In e (rglob sample_root) -> 0 <= st_size e).
  { apply List.Forall_forall. cbn.
    repeat (constructor; [unfold st_size; cbn; lia|]). constructor. }
  split; [exact Hd|]. split; [exact Hpos|].
  destruct (total_size_of_children sample_drawer sample_root Hd Hpos)
    as (_ & _ & _ & Hchild).
  apply (Hchild ("b", b)); [|reflexivity].
  vm_compute. do 2 right. left. reflexivity.
Defined.

Lemma export_line_by_line_example :
  exists text tr',
    draw glob strftime_utc sample_drawer sample_fs true (Some ["out"]) [] =
      (inr text, tr') /\
    In (WriteFile ["out"; "tree_structure.txt"]
          (String.concat NL
             (map strip_markers
                (root_line strftime_utc sample_drawer sample_root ::
                 _tree_structure glob strftime_utc sample_drawer sample_root ""))))
       tr'.
Proof.
  destruct (draw glob strftime_utc sample_drawer sample_fs true (Some ["out"]) [])
    as [[e | text] tr'] eqn:Hdraw; [vm_compute in Hdraw; discriminate|].
  exists text, tr'. split; [reflexivity|].
  destruct (export_line_by_line glob strftime_utc sample_drawer sample_fs true
              ["out"] [] tr' text Hdraw esc_free_strftime_utc eq_refl)
    as (root & Hr & Hlines).
  injection Hr as <-. exact (proj1 (Hlines sample_plain)).
Defined.

Lemma shown_tenths_monotone_example :
  1280 <= 1792 /\
  exists qn qm,
    qn <= qm /\
    _get_size 1280 =
      "(" +:+ str_of_int (qn / 10) +:+ "." +:+ str_of_int (qn mod 10) +:+ " KB)" /\
    _get_size 1792 =
      "(" +:+ str_of_int (qm / 10) +:+ "." +:+ str_of_int (qm mod 10) +:+ " KB)".
Proof.
  assert (H : 1280 <= 1792) by lia.
  split; [exact H|].
  destruct (shown_tenths_monotone 1280 1792 H) as [Hkb _].
  apply Hkb; lia.
Defined.

Lemma unfiltered_walk_is_complete_example :
  ignored_patterns sample_drawer_all = ∅ /\
  show_files sample_drawer_all = true /\
  show_hidden sample_drawer_all = true /\
  length (_tree_structure glob strftime_utc sample_drawer_all sample_root "") =
  length (beneath sample_root).
Proof.
  assert (Hi : ignored_patterns sample_drawer_all = ∅) by reflexivity.
  split; [exact Hi|]. split; [reflexivity|]. split; [reflexivity|].
  destruct (unfiltered_walk_is_complete glob strftime_utc sample_drawer_all
              sample_root "" Hi eq_refl eq_refl) as [_ Hlen].
  exact Hlen.
Defined.
